(** * Countdown / alarm widget with a BGM track library: [src/App.tsx]

    A shallow embedding of the React component [App] and the properties of
    its timer engine, upload validator, track library and BGM player.

    Modelling conventions.
    - A React state cell [const [x, setX] = useState(..)] is a field of
      [AppState]; a handler is a function from the state it was rendered
      with to the state after its [setX] calls, paired with the list of
      calls it makes on the platform (DOM media elements, [localStorage],
      [URL], [console]), in program order.
    - JavaScript numbers that the component only uses as integers (clock
      values in milliseconds, field values, byte sizes) are [Z]; [NaN] is
      explicit where the code can produce it.
    - Strings are [string] (byte sequences); the code only inspects ASCII
      separators and prefixes.
    - Results of platform calls that the component cannot compute itself
      (the clock, [JSON.parse], [URL.createObjectURL], the outcome of
      [play()]) are arguments of the handler that consumes them. *)

From Stdlib Require Import ZArith List String Ascii Bool Lia QArith.
From Stdlib Require Import DecimalString DecimalZ Sorted.
Import ListNotations.

Local Open Scope string_scope.
Local Open Scope list_scope.
Local Open Scope Z_scope.

(** ** JavaScript platform functions used by the component *)

Module JS.

(** A JavaScript number, as far as the component computes with it. *)
Inductive number : Type :=
| NaN
| Num (z : Z).

(** [s.split(sep)] for a one-character separator. *)
Fixpoint split (sep : ascii) (s : string) : list string :=
  match s with
  | EmptyString => [EmptyString]
  | String c rest =>
      if Ascii.eqb c sep then EmptyString :: split sep rest
      else match split sep rest with
           | [] => [String c EmptyString]
           | seg :: segs => String c seg :: segs
           end
  end.

Definition digit_of_ascii (c : ascii) : option Z :=
  let n := Z.of_N (N_of_ascii c) in
  if (48 <=? n) && (n <=? 57) then Some (n - 48) else None.

Fixpoint digits_value (acc : Z) (s : string) : option Z :=
  match s with
  | EmptyString => Some acc
  | String c rest =>
      match digit_of_ascii c with
      | Some d => digits_value (acc * 10 + d) rest
      | None => None
      end
  end.

(** [Number(s)] on the segments of a time input's value: the empty string
    is 0, a string of decimal digits is its value, anything else is sent to
    [NaN] (signed, fractional, padded or prefixed literals do not occur in
    the value of an [<input type="time">]). *)
Definition Number (s : string) : number :=
  match digits_value 0 s with
  | Some z => Num z
  | None => NaN
  end.

(** Array destructuring [[a, b] = xs]: a missing element is [undefined],
    which every numeric use below turns into [NaN]. *)
Definition element (xs : list number) (i : nat) : number := nth i xs NaN.

(** [String(n)] for an integer-valued number. *)
Definition Z_to_string (z : Z) : string := NilZero.string_of_int (Z.to_int z).

Definition String_ (n : number) : string :=
  match n with
  | NaN => "NaN"
  | Num z => Z_to_string z
  end.

Fixpoint repeat_char (c : ascii) (n : nat) : string :=
  match n with
  | O => EmptyString
  | S k => String c (repeat_char c k)
  end.

(** [s.padStart(width, c)] for a one-character filler. *)
Definition padStart (width : nat) (c : ascii) (s : string) : string :=
  (repeat_char c (width - String.length s) ++ s)%string.

(** [s.startsWith(p)]. *)
Definition startsWith (p s : string) : bool := String.prefix p s.

(** [Math.max]: [NaN] is contagious. *)
Definition Math_max (a b : number) : number :=
  match a, b with
  | Num x, Num y => Num (Z.max x y)
  | _, _ => NaN
  end.

(** [Math.floor (a / d)] for an integer [a] and a positive integer [d]. *)
Definition floor_div (a : number) (d : Z) : number :=
  match a with
  | Num x => Num (x / d)
  | NaN => NaN
  end.

(** [a % d] for integers: the sign follows the dividend. *)
Definition rem (a : number) (d : Z) : number :=
  match a with
  | Num x => Num (Z.rem x d)
  | NaN => NaN
  end.

(** *** [Date]

    A [Date] holds a time value in milliseconds since the epoch, or is an
    Invalid Date.  Local time is the time value shifted by a fixed offset
    [LocalTZA]; daylight-saving transitions are not modelled, so every
    local day has [msPerDay] milliseconds. *)
Inductive Date : Type :=
| InvalidDate
| DateAt (t : Z).

Definition msPerDay : Z := 86400000.
Definition msPerHour : Z := 3600000.
Definition msPerMinute : Z := 60000.
Definition maxTime : Z := 8640000000000000.

Definition TimeClip (t : Z) : Date :=
  if Z.abs t <=? maxTime then DateAt t else InvalidDate.

Definition getTime (d : Date) : number :=
  match d with
  | InvalidDate => NaN
  | DateAt t => Num t
  end.

(** [a < b] and [a >= b] on dates compare time values; a comparison with
    an Invalid Date is false. *)
Definition Date_lt (a b : Date) : bool :=
  match a, b with
  | DateAt x, DateAt y => x <? y
  | _, _ => false
  end.

Definition Date_ge (a b : Date) : bool :=
  match a, b with
  | DateAt x, DateAt y => y <=? x
  | _, _ => false
  end.

Section LocalTime.
Variable LocalTZA : Z.

(** Start of the local day containing [t], as a time value. *)
Definition startOfLocalDay (t : Z) : Z :=
  ((t + LocalTZA) / msPerDay) * msPerDay - LocalTZA.

(** [d.setHours(h, m, 0, 0)]. *)
Definition setHours (d : Date) (h m : number) : Date :=
  match d, h, m with
  | DateAt t, Num hh, Num mm =>
      TimeClip (startOfLocalDay t + hh * msPerHour + mm * msPerMinute)
  | _, _, _ => InvalidDate
  end.

(** [d.setDate(d.getDate() + 1)]: the same local time on the next day. *)
Definition addOneDay (d : Date) : Date :=
  match d with
  | DateAt t => TimeClip (t + msPerDay)
  | InvalidDate => InvalidDate
  end.
End LocalTime.

End JS.

Import JS.

(** ** Data model *)

(** [type TimerType = 'time' | 'duration'] *)
Inductive TimerType : Type :=
| time
| duration.

(** [interface BGMTrack] *)
Record BGMTrack : Type := mkTrack {
  id : string;
  title : string;
  composer : string;
  filename : string;
  originalName : string;
  size : Z;
  type : string;
  uploadedAt : string
}.

Record DurationInput : Type := mkDuration {
  hours : Z;
  minutes : Z;
  seconds : Z
}.

(** The state cells of [App], and whether the two [<audio>] refs hold their
    element ([audioRef] is the alarm, [bgmRef] the background music). *)
Record AppState : Type := mkState {
  currentTime : Date;
  timerType : TimerType;
  targetTime : string;
  durationInput : DurationInput;
  endTime : option Date;
  isBGMPlaying : bool;
  isBGMLoaded : bool;
  tracks : list BGMTrack;
  selectedTrack : option BGMTrack;
  showUploadForm : bool;
  uploadError : option string;
  volume : Q;
  audioRef : bool;
  bgmRef : bool
}.

(** Calls made on the platform, in the order the code makes them. *)
Inductive Effect : Type :=
| ConsoleLog (msg : string)
| ConsoleError (msg : string)
| RevokeObjectURL (url : string)
| StorageSetItem (key value : string)
| AlarmPlay
| BgmPause
| BgmSetCurrentTime (t : Z)
| BgmPlay
| BgmLoad
| BgmSetVolume (v : Q)
| BgmSetListeners
| BgmClearListeners
| Focus (tabindex : Z)
| Blur.

Definition setCurrentTime (v : Date) (s : AppState) : AppState :=
  mkState v (timerType s) (targetTime s) (durationInput s) (endTime s)
    (isBGMPlaying s) (isBGMLoaded s) (tracks s) (selectedTrack s)
    (showUploadForm s) (uploadError s) (volume s) (audioRef s) (bgmRef s).

Definition setDurationInput (v : DurationInput) (s : AppState) : AppState :=
  mkState (currentTime s) (timerType s) (targetTime s) v (endTime s)
    (isBGMPlaying s) (isBGMLoaded s) (tracks s) (selectedTrack s)
    (showUploadForm s) (uploadError s) (volume s) (audioRef s) (bgmRef s).

Definition setEndTime (v : option Date) (s : AppState) : AppState :=
  mkState (currentTime s) (timerType s) (targetTime s) (durationInput s) v
    (isBGMPlaying s) (isBGMLoaded s) (tracks s) (selectedTrack s)
    (showUploadForm s) (uploadError s) (volume s) (audioRef s) (bgmRef s).

Definition setIsBGMPlaying (v : bool) (s : AppState) : AppState :=
  mkState (currentTime s) (timerType s) (targetTime s) (durationInput s)
    (endTime s) v (isBGMLoaded s) (tracks s) (selectedTrack s)
    (showUploadForm s) (uploadError s) (volume s) (audioRef s) (bgmRef s).

Definition setIsBGMLoaded (v : bool) (s : AppState) : AppState :=
  mkState (currentTime s) (timerType s) (targetTime s) (durationInput s)
    (endTime s) (isBGMPlaying s) v (tracks s) (selectedTrack s)
    (showUploadForm s) (uploadError s) (volume s) (audioRef s) (bgmRef s).

Definition setTracks (v : list BGMTrack) (s : AppState) : AppState :=
  mkState (currentTime s) (timerType s) (targetTime s) (durationInput s)
    (endTime s) (isBGMPlaying s) (isBGMLoaded s) v (selectedTrack s)
    (showUploadForm s) (uploadError s) (volume s) (audioRef s) (bgmRef s).

Definition setSelectedTrack (v : option BGMTrack) (s : AppState) : AppState :=
  mkState (currentTime s) (timerType s) (targetTime s) (durationInput s)
    (endTime s) (isBGMPlaying s) (isBGMLoaded s) (tracks s) v
    (showUploadForm s) (uploadError s) (volume s) (audioRef s) (bgmRef s).

Definition setShowUploadForm (v : bool) (s : AppState) : AppState :=
  mkState (currentTime s) (timerType s) (targetTime s) (durationInput s)
    (endTime s) (isBGMPlaying s) (isBGMLoaded s) (tracks s) (selectedTrack s)
    v (uploadError s) (volume s) (audioRef s) (bgmRef s).

Definition setUploadError (v : option string) (s : AppState) : AppState :=
  mkState (currentTime s) (timerType s) (targetTime s) (durationInput s)
    (endTime s) (isBGMPlaying s) (isBGMLoaded s) (tracks s) (selectedTrack s)
    (showUploadForm s) v (volume s) (audioRef s) (bgmRef s).

(** ** Timer engine *)

Section Timer.
Variable LocalTZA : Z.

(** [startTimer] (lines 138-157).  [now1] is the clock read by the first
    [new Date()] of the time-of-day branch (and by [Date.now()] in the
    duration branch); [now2] is the clock read by the second [new Date()],
    the one the target is compared with. *)
Definition startTimer (now1 now2 : Z) (s : AppState) : AppState :=
  match timerType s with
  | time =>
      if String.eqb (targetTime s) "" then s
      else
        let parts := map Number (split ":" (targetTime s)) in
        let targetDate := setHours LocalTZA (DateAt now1) (element parts 0) (element parts 1) in
        let targetDate :=
          if Date_lt targetDate (DateAt now2) then addOneDay targetDate else targetDate in
        setEndTime (Some targetDate) s
  | duration =>
      let d := durationInput s in
      if (hours d =? 0) && (minutes d =? 0) && (seconds d =? 0) then s
      else
        let totalSeconds := hours d * 3600 + minutes d * 60 + seconds d in
        setEndTime (Some (TimeClip (now1 + totalSeconds * 1000))) s
  end.
End Timer.

(** [stopTimer] (lines 159-161). *)
Definition stopTimer (s : AppState) : AppState := setEndTime None s.

(** [playAlarm] (lines 163-172).  The interval callback calls the [playAlarm]
    of the render in which the interval was installed, so the playing flag it
    tests is the one of that render: [playingSeen]. *)
Definition playAlarm (playingSeen : bool) (s : AppState) : AppState * list Effect :=
  if audioRef s then
    if bgmRef s && playingSeen
    then (setIsBGMPlaying false s, [BgmPause; BgmSetCurrentTime 0; AlarmPlay])
    else (s, [AlarmPlay])
  else (s, []).

(** The interval callback (lines 123-133).  [shown] is the clock stored by
    [setCurrentTime(new Date())], [now] the clock read for the expiry test.
    The effect is re-installed whenever [endTime] changes, so the callback
    sees the current deadline.  [clearInterval(timerRef.current)] clears
    nothing: [timerRef] is never assigned. *)
Definition tick (playingSeen : bool) (shown now : Z) (s : AppState)
  : AppState * list Effect :=
  let s1 := setCurrentTime (DateAt shown) s in
  match endTime s with
  | Some e =>
      if Date_ge (DateAt now) e then
        let '(s2, fx) := playAlarm playingSeen s1 in
        (setEndTime None s2, fx)
      else (s1, [])
  | None => (s1, [])
  end.

(** The number of seconds [getTimeLeft] formats (line 210). *)
Definition remainingSeconds (e : Date) (now : Z) : number :=
  match getTime e with
  | Num t => Math_max (Num 0) (floor_div (Num (t - now)) 1000)
  | NaN => NaN
  end.

Definition two (n : number) : string := padStart 2 "0" (String_ n).

(** [getTimeLeft] (lines 207-216). *)
Definition getTimeLeft (now : Z) (s : AppState) : option string :=
  match endTime s with
  | None => None
  | Some e =>
      let diff := remainingSeconds e now in
      let h := floor_div diff 3600 in
      let m := floor_div (rem diff 3600) 60 in
      let sec := rem diff 60 in
      Some (two h ++ ":" ++ two m ++ ":" ++ two sec)%string
  end.

(** A run of the ticker: the callback at each pair of clock readings. *)
Fixpoint ticks (playingSeen : bool) (clock : list (Z * Z)) (s : AppState)
  : AppState * list Effect :=
  match clock with
  | [] => (s, [])
  | (shown, now) :: rest =>
      let '(s1, fx1) := tick playingSeen shown now s in
      let '(s2, fx2) := ticks playingSeen rest s1 in
      (s2, fx1 ++ fx2)
  end.

Definition is_AlarmPlay (e : Effect) : bool :=
  match e with
  | AlarmPlay => true
  | _ => false
  end.

Definition alarms (fx : list Effect) : nat := List.length (filter is_AlarmPlay fx).

(** ** Duration fields (lines 452-589) *)

Inductive Field : Type :=
| Hours
| Minutes
| Seconds.

(** The [max] of each [<input type="number">] and of its clamps. *)
Definition fieldMax (f : Field) : Z :=
  match f with
  | Hours => 23
  | Minutes => 59
  | Seconds => 59
  end.

Definition getField (f : Field) (d : DurationInput) : Z :=
  match f with
  | Hours => hours d
  | Minutes => minutes d
  | Seconds => seconds d
  end.

(** [{...prev, field: v}] *)
Definition withField (f : Field) (v : Z) (prev : DurationInput) : DurationInput :=
  match f with
  | Hours => mkDuration v (minutes prev) (seconds prev)
  | Minutes => mkDuration (hours prev) v (seconds prev)
  | Seconds => mkDuration (hours prev) (minutes prev) v
  end.

(** [x || 0] on the result of [parseInt]. *)
Definition orZero (x : number) : Z :=
  match x with
  | Num z => z
  | NaN => 0
  end.

(** [onChange] of a field; [parsed] is [parseInt(e.target.value)], which is
    [NaN] or an integer (a literal too long for a double parses to an
    infinity, which the clamps treat like any integer beyond the bound). *)
Definition fieldChange (f : Field) (parsed : number) (s : AppState) : AppState :=
  setDurationInput
    (withField f (Z.max 0 (Z.min (fieldMax f) (orZero parsed))) (durationInput s)) s.

(** [KeyboardEvent.key]: a named key, or the character of a printable key. *)
Inductive Key : Type :=
| ArrowUp
| ArrowDown
| Backspace
| Char (c : ascii)
| OtherKey.

(** [e.key >= '0' && e.key <= '9'] on a one-character key. *)
Definition isDigitKey (c : ascii) : bool :=
  let n := Z.of_N (N_of_ascii c) in (48 <=? n) && (n <=? 57).

(** [parseInt(e.key)] on a digit key. *)
Definition keyDigit (c : ascii) : Z := Z.of_N (N_of_ascii c) - 48.

(** The field value from which a second digit moves the focus on. *)
Definition advanceFrom (f : Field) : Z :=
  match f with
  | Hours => 2
  | Minutes => 5
  | Seconds => 5
  end.

(** Where the focus goes after a completed entry, and on Backspace in a
    field that holds 0 (the hours field looks up tabindex 3). *)
Definition focusNext (f : Field) : Effect :=
  match f with
  | Hours => Focus 2
  | Minutes => Focus 3
  | Seconds => Blur
  end.

Definition focusPrev (f : Field) : Effect :=
  match f with
  | Hours => Focus 3
  | Minutes => Focus 1
  | Seconds => Focus 2
  end.

(** [onKeyDown] of a field. *)
Definition fieldKeyDown (f : Field) (key : Key) (s : AppState) : AppState * list Effect :=
  let prev := durationInput s in
  let v := getField f prev in
  match key with
  | ArrowUp => (setDurationInput (withField f (Z.min (fieldMax f) (v + 1)) prev) s, [])
  | ArrowDown => (setDurationInput (withField f (Z.max 0 (v - 1)) prev) s, [])
  | Char c =>
      if isDigitKey c then
        let newValue := Z.rem (v * 10 + keyDigit c) 100 in
        (setDurationInput (withField f (Z.min (fieldMax f) newValue) prev) s,
         if (advanceFrom f <=? v) || (fieldMax f <? newValue) then [focusNext f] else [])
      else (s, [])
  | Backspace => if v =? 0 then (s, [focusPrev f]) else (s, [])
  | OtherKey => (s, [])
  end.

(** The range every duration field is kept in. *)
Definition durationInRange (d : DurationInput) : Prop :=
  0 <= hours d <= 23 /\ 0 <= minutes d <= 59 /\ 0 <= seconds d <= 59.

(** A mutation of the duration input. *)
Inductive DurationEdit : Type :=
| DirectEntry (f : Field) (parsed : number)
| KeyDown (f : Field) (key : Key).

Definition applyEdit (e : DurationEdit) (s : AppState) : AppState :=
  match e with
  | DirectEntry f parsed => fieldChange f parsed s
  | KeyDown f key => fst (fieldKeyDown f key s)
  end.

(** ** Upload validator and admission (lines 18-24, 251-314) *)

Definition MAX_FILE_SIZE : Z := 10 * 1024 * 1024.

Definition ACCEPTED_FORMATS : list string :=
  ["audio/mpeg"; "audio/wav"; "audio/ogg"; "audio/x-m4a"].

(** [xs.includes(x)] on strings. *)
Definition includes (xs : list string) (x : string) : bool :=
  existsb (String.eqb x) xs.

(** What the handler reads of a [File]. *)
Record File : Type := mkFile {
  file_name : string;
  file_size : Z;
  file_type : string
}.

Definition sizeErrorMessage : string := "ファイルサイズは10MB以下にしてください".
Definition formatErrorMessage : string := "対応していないファイル形式です".

(** What [reader.onload] closes over: the file, the timestamp taken at
    admission, and the [tracks] of the render that handled the change. *)
Record PendingRead : Type := mkPending {
  read_file : File;
  read_timestamp : Z;
  read_tracks : list BGMTrack
}.

(** [onChange] of the file input, up to [reader.readAsArrayBuffer(file)].
    [now] is [Date.now()]. *)
Definition fileChange (now : Z) (file : option File) (s : AppState)
  : AppState * option PendingRead :=
  match file with
  | None => (s, None)
  | Some f =>
      if MAX_FILE_SIZE <? file_size f then
        (setUploadError (Some sizeErrorMessage) s, None)
      else if negb (includes ACCEPTED_FORMATS (file_type f)) then
        (setUploadError (Some formatErrorMessage) s, None)
      else
        (setUploadError None s, Some (mkPending f now (tracks s)))
  end.

(** [JSON.stringify] of a track list: an array of objects with the
    members in declaration order, strings quoted with the JSON escapes. *)
Module Stringify.

Definition dquote : ascii := ascii_of_nat 34.
Definition backslash : ascii := ascii_of_nat 92.

Definition hexDigit (n : nat) : ascii :=
  nth n (list_ascii_of_string "0123456789abcdef") "0"%char.

Definition escape (c : ascii) : string :=
  let n := nat_of_ascii c in
  if Nat.eqb n 34 then String backslash (String dquote EmptyString)
  else if Nat.eqb n 92 then String backslash (String backslash EmptyString)
  else if Nat.eqb n 8 then String backslash "b"
  else if Nat.eqb n 9 then String backslash "t"
  else if Nat.eqb n 10 then String backslash "n"
  else if Nat.eqb n 12 then String backslash "f"
  else if Nat.eqb n 13 then String backslash "r"
  else if Nat.ltb n 32 then
    String backslash
      ("u00" ++ String (hexDigit (Nat.div n 16)) (String (hexDigit (Nat.modulo n 16)) EmptyString))
  else String c EmptyString.

Fixpoint escapeAll (s : string) : string :=
  match s with
  | EmptyString => EmptyString
  | String c rest => (escape c ++ escapeAll rest)%string
  end.

Definition quote (s : string) : string :=
  String dquote (escapeAll s ++ String dquote EmptyString).

Definition member (key value : string) : string :=
  (quote key ++ ":" ++ value)%string.

Definition track (t : BGMTrack) : string :=
  ("{" ++ String.concat ","
     [ member "id" (quote (id t));
       member "title" (quote (title t));
       member "composer" (quote (composer t));
       member "filename" (quote (filename t));
       member "originalName" (quote (originalName t));
       member "size" (Z_to_string (size t));
       member "type" (quote (type t));
       member "uploadedAt" (quote (uploadedAt t)) ] ++ "}")%string.

Definition JSON_stringify (ts : list BGMTrack) : string :=
  ("[" ++ String.concat "," (map track ts) ++ "]")%string.

End Stringify.

Import Stringify.

Definition storageKey : string := "bgmTracks".

(** [composer: '不明'], the placeholder for an unknown composer. *)
Definition composerPlaceholder : string := "不明".

(** [file.name.split('.').pop()] and the generated name of lines 271-272
    (computed and not used afterwards). *)
Definition fileExt (f : File) : string := last (split "." (file_name f)) EmptyString.

Definition generatedFilename (p : PendingRead) : string :=
  (Z_to_string (read_timestamp p) ++ "." ++ fileExt (read_file p))%string.

(** [newTrack] (lines 291-300).  [blobUrl] is what [URL.createObjectURL]
    returned, [isoNow] is [new Date().toISOString()]. *)
Definition newTrack (p : PendingRead) (blobUrl isoNow : string) : BGMTrack :=
  let f := read_file p in
  mkTrack (Z_to_string (read_timestamp p))
          (nth 0 (split "." (file_name f)) EmptyString)
          composerPlaceholder
          blobUrl
          (file_name f)
          (file_size f)
          (file_type f)
          isoNow.

(** [reader.onload] (lines 281-307).  [hasResult] is the truthiness of
    [event.target?.result]. *)
Definition readerOnload (p : PendingRead) (hasResult : bool) (blobUrl isoNow : string)
  (s : AppState) : AppState * list Effect :=
  if negb hasResult then (s, [])
  else
    let t := newTrack p blobUrl isoNow in
    let updatedTracks := read_tracks p ++ [t] in
    (setShowUploadForm false (setSelectedTrack (Some t) (setTracks updatedTracks s)),
     [StorageSetItem storageKey (JSON_stringify updatedTracks)]).

(** ** Track list (lines 339-380) *)

(** [bgmRef.current?.pause()] *)
Definition pauseIfPresent (s : AppState) : list Effect :=
  if bgmRef s then [BgmPause] else [].

(** Click on a track (lines 349-355). *)
Definition selectTrack (track : BGMTrack) (s : AppState) : AppState * list Effect :=
  (setIsBGMPlaying false (setSelectedTrack (Some track) s),
   if isBGMPlaying s then pauseIfPresent s else []).

(** [selectedTrack?.id === track.id] *)
Definition isSelected (track : BGMTrack) (s : AppState) : bool :=
  match selectedTrack s with
  | Some sel => String.eqb (id sel) (id track)
  | None => false
  end.

(** [tracks.filter(t => t.id !== track.id)] *)
Definition withoutTrack (track : BGMTrack) (ts : list BGMTrack) : list BGMTrack :=
  filter (fun t => negb (String.eqb (id t) (id track))) ts.

(** Click on the delete button of a track (lines 362-374). *)
Definition deleteTrack (track : BGMTrack) (s : AppState) : AppState * list Effect :=
  let '(s1, fx1) :=
    if isSelected track s
    then (setIsBGMPlaying false (setSelectedTrack None s), pauseIfPresent s)
    else (s, []) in
  let fx2 :=
    if startsWith "blob:" (filename track) then [RevokeObjectURL (filename track)] else [] in
  let updatedTracks := withoutTrack track (tracks s) in
  (setTracks updatedTracks s1,
   fx1 ++ fx2 ++ [StorageSetItem storageKey (JSON_stringify updatedTracks)]).

(** ** BGM player *)

(** The body of [loadAudio], run by the effect on [[selectedTrack]] (lines
    66-104) with the state of the render that scheduled it. *)
Definition loadAudio (s : AppState) : list Effect :=
  if bgmRef s then
    [ConsoleLog "Setting up BGM audio..."; BgmSetListeners; BgmSetVolume (volume s)]
    ++ (if negb (isBGMLoaded s) then [BgmLoad; ConsoleLog "BGM load called"] else [])
  else [].

(** The cleanup of that effect (lines 106-112). *)
Definition loadAudioCleanup (s : AppState) : list Effect :=
  if bgmRef s then [BgmClearListeners] else [].

(** A change of the selected track as the player sees it: the handler's
    state is rendered, the previous effect is cleaned up and the effect runs
    again. *)
Definition selectedTrackChanged (s : AppState) : AppState * list Effect :=
  (s, loadAudioCleanup s ++ loadAudio s).

(** The [oncanplaythrough] and [onerror] listeners while mounted. *)
Definition onCanPlayThrough (s : AppState) : AppState * list Effect :=
  (setIsBGMLoaded true s, [ConsoleLog "BGM can play through"]).

Definition onBgmError (s : AppState) : AppState * list Effect :=
  (setIsBGMLoaded false s, [ConsoleError "BGM loading error:"]).

(** What [bgmRef.current.play()] does before [toggleBGM] returns. *)
Inductive PlayCall : Type :=
| ReturnsPromise
| ReturnsUndefined
| Throws.

(** [toggleBGM] (lines 174-205), up to its return. *)
Definition toggleBGM (play : PlayCall) (s : AppState) : AppState * list Effect :=
  if bgmRef s && isBGMLoaded s then
    if isBGMPlaying s then
      (setIsBGMPlaying false s, [BgmPause; BgmSetCurrentTime 0])
    else
      match play with
      | ReturnsPromise => (s, [BgmPlay])
      | ReturnsUndefined => (setIsBGMPlaying false s, [BgmPlay])
      | Throws => (setIsBGMPlaying false s, [BgmPlay; ConsoleError "Error starting BGM:"])
      end
  else (s, []).

(** The continuations of the promise returned by [play()] (lines 189-195). *)
Inductive Settled : Type :=
| Fulfilled
| Rejected.

Definition playSettled (r : Settled) (s : AppState) : AppState * list Effect :=
  match r with
  | Fulfilled => (setIsBGMPlaying true s, [])
  | Rejected => (setIsBGMPlaying false s, [ConsoleError "Error playing BGM:"])
  end.

(** The three states of the player, read off the two flags. *)
Inductive BGMPlaybackState : Type :=
| NotLoaded
| LoadedIdle
| Playing.

Definition playbackState (s : AppState) : BGMPlaybackState :=
  if isBGMLoaded s then (if isBGMPlaying s then Playing else LoadedIdle) else NotLoaded.

(** ** Initial track library (lines 38-55) *)

(** A value returned by [JSON.parse]. *)
#[warnings="-register-all"]
Inductive JSON : Type :=
| JNull
| JBool (b : bool)
| JNumber (n : Q)
| JString (s : string)
| JArray (items : list JSON)
| JObject (members : list (string * JSON)).

(** Own property lookup on a parsed object ([members] holds each key of
    the object once). *)
Fixpoint property (key : string) (members : list (string * JSON)) : option JSON :=
  match members with
  | [] => None
  | (k, v) :: rest => if String.eqb k key then Some v else property key rest
  end.

(** The callback of [parsedTracks.forEach] on one element: the calls it
    makes, or [None] when it throws a [TypeError] ([track] is [null],
    [track.filename] is missing, or is not a string and so has no
    [startsWith]). *)
Definition revokeStale (track : JSON) : option (list Effect) :=
  match track with
  | JObject members =>
      match property "filename" members with
      | Some (JString url) =>
          Some (if startsWith "blob:" url then [RevokeObjectURL url] else [])
      | _ => None
      end
  | _ => None
  end.

(** [forEach] over the elements: the calls made, and whether the loop was
    left by an exception. *)
Fixpoint forEachRevoke (items : list JSON) : list Effect * bool :=
  match items with
  | [] => ([], false)
  | track :: rest =>
      match revokeStale track with
      | None => ([], true)
      | Some fx =>
          let '(fx', threw) := forEachRevoke rest in
          (fx ++ fx', threw)
      end
  end.

Definition loadErrorMessage : string := "Error loading tracks:".

(** The body of the [try] after [JSON.parse] returned [parsedTracks]:
    [forEach] exists on arrays only, any other value throws. *)
Definition revokeParsed (parsedTracks : JSON) : list Effect * bool :=
  match parsedTracks with
  | JArray items => forEachRevoke items
  | _ => ([], true)
  end.

(** The initializer of [tracks].  [saved] is what
    [localStorage.getItem('bgmTracks')] returns ([None] for [null]);
    [parsed] is what [JSON.parse(saved)] returns, [None] when it throws a
    [SyntaxError].  The result is the initial track list and the calls made;
    the [catch] turns every exception into a logged error. *)
Definition initTracks (saved : option string) (parsed : option JSON)
  : list BGMTrack * list Effect :=
  match saved with
  | None => ([], [])
  | Some text =>
      if String.eqb text "" then ([], [])
      else
        match parsed with
        | None => ([], [ConsoleError loadErrorMessage])
        | Some parsedTracks =>
            let '(fx, threw) := revokeParsed parsedTracks in
            ([], fx ++ (if threw then [ConsoleError loadErrorMessage] else []))
        end
  end.

(** The state after the first render and mount ([now] is the clock). *)
Definition initialState (now : Z) (saved : option string) (parsed : option JSON) : AppState :=
  mkState (DateAt now) time "" (mkDuration 0 0 0) None false false
          (fst (initTracks saved parsed)) None false None (1 # 2) true true.

(** The parsed entry is a track list as far as the initializer inspects it:
    an array of objects whose [filename] is a string. *)
Definition hasFilename (track : JSON) : bool :=
  match track with
  | JObject members =>
      match property "filename" members with
      | Some (JString _) => true
      | _ => false
      end
  | _ => false
  end.

Definition readable (parsed : option JSON) : bool :=
  match parsed with
  | Some (JArray items) => forallb hasFilename items
  | _ => false
  end.

(** The entry is there and is not the empty string ([!saved] is false). *)
Definition present (saved : option string) : bool :=
  match saved with
  | Some text => negb (String.eqb text "")
  | None => false
  end.

(** The object URLs a parsed entry refers to, in order. *)
Definition staleUrl (track : JSON) : list string :=
  match track with
  | JObject members =>
      match property "filename" members with
      | Some (JString url) => if startsWith "blob:" url then [url] else []
      | _ => []
      end
  | _ => []
  end.

Definition staleUrls (parsed : option JSON) : list string :=
  match parsed with
  | Some (JArray items) => flat_map staleUrl items
  | _ => []
  end.

Definition errorLogged (fx : list Effect) : Prop := In (ConsoleError loadErrorMessage) fx.

(** ** Vocabulary of the statements *)

(** The value of an [<input type="time">]: two digits, a colon, two digits. *)
Definition timeOfDay (h m : Z) : string := (two (Num h) ++ ":" ++ two (Num m))%string.

(** The clock readings the component can meet: after the epoch, and more
    than two days before the largest time value a [Date] can hold. *)
Definition clockInRange (now : Z) : Prop := 0 <= now <= maxTime - 2 * msPerDay.

(** What [startTimer] extracts from a target string. *)
Definition targetParts (target : string) : number * number :=
  let parts := map Number (split ":" target) in (element parts 0, element parts 1).

(** The target [h]:[m] is not empty and is read back as [h] and [m]. *)
Definition parsesTo (h m : nat) : bool :=
  negb (String.eqb (timeOfDay (Z.of_nat h) (Z.of_nat m)) "")
  && match targetParts (timeOfDay (Z.of_nat h) (Z.of_nat m)) with
     | (Num a, Num b) => (a =? Z.of_nat h) && (b =? Z.of_nat m)
     | _ => false
     end.

(** Today's occurrence of [h]:[m] on the local day of the clock reading. *)
Definition todayAt (tz now h m : Z) : Z :=
  startOfLocalDay tz now + h * msPerHour + m * msPerMinute.

Definition totalSeconds (d : DurationInput) : Z :=
  hours d * 3600 + minutes d * 60 + seconds d.

(** Example states: idle, in time-of-day mode with a target, or in
    duration mode with the three fields set. *)
Definition timeMode (target : string) : AppState :=
  mkState (DateAt 0) time target (mkDuration 0 0 0) None false false [] None
          false None (1 # 2) true true.

Definition durationMode (h m sec : Z) : AppState :=
  mkState (DateAt 0) duration "" (mkDuration h m sec) None false false [] None
          false None (1 # 2) true true.

(** A running timer with deadline [d]. *)
Definition runningUntil (d : Z) : AppState :=
  mkState (DateAt 0) duration "" (mkDuration 0 0 1) (Some (DateAt d)) false false
          [] None false None (1 # 2) true true.

(** Whether some clock reading of a run of the ticker has reached [d]. *)
Definition reaches (d : Z) (clock : list (Z * Z)) : bool :=
  existsb (fun c => d <=? snd c) clock.

(** An upload with two dots in its name, and the read it starts. *)
Definition songFile : File := mkFile "my.song.mp3" 1000 "audio/mpeg".

Definition songRead : PendingRead := mkPending songFile 1741066360802 [].

(** Two tracks as admissions build them. *)
Definition trackA : BGMTrack :=
  mkTrack "1741066360802" "rain" composerPlaceholder "blob:http://localhost/a"
          "rain.mp3" 2048 "audio/mpeg" "2025-03-04T05:32:40.802Z".

Definition trackB : BGMTrack :=
  mkTrack "1741066399000" "waves" composerPlaceholder "blob:http://localhost/b"
          "waves.ogg" 4096 "audio/ogg" "2025-03-04T05:33:19.000Z".

(** The object [JSON.parse] yields for a stringified track. *)
Definition trackJSON (t : BGMTrack) : JSON :=
  JObject [ ("id", JString (id t)); ("title", JString (title t));
            ("composer", JString (composer t)); ("filename", JString (filename t));
            ("originalName", JString (originalName t));
            ("size", JNumber (inject_Z (size t))); ("type", JString (type t));
            ("uploadedAt", JString (uploadedAt t)) ].

(** What [JSON.parse] returns for [JSON_stringify [trackA; trackB]]. *)
Definition storedTwo : JSON := JArray [trackJSON trackA; trackJSON trackB].

(** Both example tracks in the library, [trackA] selected, loaded and
    playing. *)
Definition playingA : AppState :=
  mkState (DateAt 0) time "" (mkDuration 0 0 0) None true true [trackA; trackB]
          (Some trackA) false None (1 # 2) true true.

(** [trackA] selected and loaded, nothing playing. *)
Definition loadedA : AppState :=
  mkState (DateAt 0) time "" (mkDuration 0 0 0) None false true [trackA; trackB]
          (Some trackA) false None (1 # 2) true true.

(** The ids of a track list are the decimal renderings of admission
    timestamps that increase along the list and lie before [bound]. *)
Definition admittedBefore (bound : Z) (ts : list BGMTrack) : Prop :=
  exists stamps,
    map id ts = map Z_to_string stamps
    /\ StronglySorted Z.lt stamps
    /\ Forall (fun z => z < bound) stamps.

(** The string has no dot in it. *)
Fixpoint noDot (s : string) : bool :=
  match s with
  | EmptyString => true
  | String c rest => negb (Ascii.eqb c ".") && noDot rest
  end.

(** A stored list whose objects have a [filename] and nothing else. *)
Definition storedBare : JSON :=
  JArray [JObject [("filename", JString "/audio/a.mp3")]].

(** ** The remaining handlers, and the component as a transition system *)

(** The mode buttons (lines 423, 433), the time input (line 448), the
    volume slider (line 413; the value is what [parseFloat] returned) and
    the upload form buttons (lines 330, 382). *)
Definition setTimerType (v : TimerType) (s : AppState) : AppState :=
  mkState (currentTime s) v (targetTime s) (durationInput s) (endTime s)
    (isBGMPlaying s) (isBGMLoaded s) (tracks s) (selectedTrack s)
    (showUploadForm s) (uploadError s) (volume s) (audioRef s) (bgmRef s).

Definition setTargetTime (v : string) (s : AppState) : AppState :=
  mkState (currentTime s) (timerType s) v (durationInput s) (endTime s)
    (isBGMPlaying s) (isBGMLoaded s) (tracks s) (selectedTrack s)
    (showUploadForm s) (uploadError s) (volume s) (audioRef s) (bgmRef s).

Definition setVolume (v : Q) (s : AppState) : AppState :=
  mkState (currentTime s) (timerType s) (targetTime s) (durationInput s) (endTime s)
    (isBGMPlaying s) (isBGMLoaded s) (tracks s) (selectedTrack s)
    (showUploadForm s) (uploadError s) v (audioRef s) (bgmRef s).

(** The effect on [[volume]] (lines 116-120). *)
Definition volumeChanged (s : AppState) : list Effect :=
  if bgmRef s then [BgmSetVolume (volume s)] else [].

(** What can happen to the mounted component: a user action, a timer tick,
    or a callback of the BGM element or of a file read.  A file event stands
    for the change of the file input together with the [onload] of the read
    it starts, nothing else happening in between. *)
Inductive Event : Type :=
| EvStart (now1 now2 : Z)
| EvStop
| EvTick (playingSeen : bool) (shown now : Z)
| EvTimerType (v : TimerType)
| EvTargetTime (v : string)
| EvFieldChange (f : Field) (parsed : number)
| EvFieldKeyDown (f : Field) (key : Key)
| EvToggle (play : PlayCall)
| EvPlaySettled (r : Settled)
| EvCanPlayThrough
| EvBgmError
| EvFile (now : Z) (file : option File) (hasResult : bool) (blobUrl isoNow : string)
| EvSelect (track : BGMTrack)
| EvDelete (track : BGMTrack)
| EvShowUploadForm (v : bool)
| EvVolume (v : Q).

(** The handler of an event: the state it renders next and the calls it
    makes.  (The effects React runs after that render, [loadAudio] and
    [volumeChanged], set no state cell and write nothing to storage.) *)
Definition handle (tz : Z) (ev : Event) (s : AppState) : AppState * list Effect :=
  match ev with
  | EvStart now1 now2 => (startTimer tz now1 now2 s, [])
  | EvStop => (stopTimer s, [])
  | EvTick playingSeen shown now => tick playingSeen shown now s
  | EvTimerType v => (setTimerType v s, [])
  | EvTargetTime v => (setTargetTime v s, [])
  | EvFieldChange f parsed => (fieldChange f parsed s, [])
  | EvFieldKeyDown f key => fieldKeyDown f key s
  | EvToggle play => toggleBGM play s
  | EvPlaySettled r => playSettled r s
  | EvCanPlayThrough => onCanPlayThrough s
  | EvBgmError => onBgmError s
  | EvFile now file hasResult blobUrl isoNow =>
      let '(s1, pending) := fileChange now file s in
      match pending with
      | Some p => readerOnload p hasResult blobUrl isoNow s1
      | None => (s1, [])
      end
  | EvSelect track => selectTrack track s
  | EvDelete track => deleteTrack track s
  | EvShowUploadForm v => (setShowUploadForm v s, [])
  | EvVolume v => (setVolume v s, [])
  end.

(** When the page offers the event: the start/stop button starts an idle
    timer and stops a running one (line 601); select and delete buttons
    exist for the tracks of the list (line 339); the clock read at a file
    event is not before [clock], a bound above every earlier admission. *)
Definition offered (clock : Z) (ev : Event) (s : AppState) : Prop :=
  match ev with
  | EvStart _ _ => endTime s = None
  | EvStop => endTime s <> None
  | EvFile now _ _ _ _ => clock <= now
  | EvSelect track => In track (tracks s)
  | EvDelete track => In track (tracks s)
  | _ => True
  end.

Definition clockAfter (clock : Z) (ev : Event) : Z :=
  match ev with
  | EvFile now _ _ _ _ => now + 1
  | _ => clock
  end.

(** The stored [bgmTracks] entry after a list of calls. *)
Fixpoint storageAfter (fx : list Effect) (stored : option string) : option string :=
  match fx with
  | [] => stored
  | StorageSetItem key value :: rest =>
      storageAfter rest (if String.eqb key storageKey then Some value else stored)
  | _ :: rest => storageAfter rest stored
  end.

(** The states of the mounted component, each with a bound above the
    admission timestamps so far and with the stored entry. *)
Inductive Reachable (tz : Z) : Z -> AppState -> option string -> Prop :=
| Reach_init (now : Z) (saved : option string) (parsed : option JSON) :
    Reachable tz now (initialState now saved parsed) saved
| Reach_step (clock : Z) (s : AppState) (stored : option string) (ev : Event) :
    Reachable tz clock s stored -> offered clock ev s ->
    Reachable tz (clockAfter clock ev) (fst (handle tz ev s))
              (storageAfter (snd (handle tz ev s)) stored).

(** A track as the validator and the admission leave it. *)
Definition admissible (t : BGMTrack) : Prop :=
  size t <= MAX_FILE_SIZE
  /\ In (type t) ACCEPTED_FORMATS
  /\ composer t = composerPlaceholder
  /\ noDot (title t) = true.

(** The ticker after a start at [t0]: tick [k] comes [e] milliseconds plus
    [k] seconds later. *)
Definition tickTimes (t0 e : Z) (n : nat) : list (Z * Z) :=
  map (fun k => (t0 + e + 1000 * Z.of_nat k, t0 + e + 1000 * Z.of_nat k)) (seq 1 n).

(** The string has no [c] in it. *)
Fixpoint lacks (c : ascii) (s : string) : bool :=
  match s with
  | EmptyString => true
  | String a rest => negb (Ascii.eqb a c) && lacks c rest
  end.

(** Two digits that read back as [n], with no colon. *)
Definition twoDigits (n : nat) : bool :=
  let t := two (Num (Z.of_nat n)) in
  Nat.eqb (String.length t) 2 && lacks ":" t
  && match Number t with
     | Num z => z =? Z.of_nat n
     | NaN => false
     end.

(** The elements of a stored list up to the first one the initializer
    cannot read. *)
Fixpoint readablePrefix (items : list JSON) : list JSON :=
  match items with
  | [] => []
  | track :: rest => if hasFilename track then track :: readablePrefix rest else []
  end.

(** [n] presses of a key on a field. *)
Fixpoint pressTimes (n : nat) (f : Field) (key : Key) (s : AppState) : AppState :=
  match n with
  | O => s
  | S k => pressTimes k f key (fst (fieldKeyDown f key s))
  end.

(** The digit key for [d]. *)
Definition digitKey (d : Z) : Key := Char (ascii_of_N (Z.to_N (d + 48))).

(** What every reachable state satisfies. *)
Definition Invariant (clock : Z) (s : AppState) (stored : option string) : Prop :=
  admittedBefore clock (tracks s)
  /\ (forall t, selectedTrack s = Some t -> In t (tracks s))
  /\ Forall admissible (tracks s)
  /\ durationInRange (durationInput s)
  /\ (tracks s = [] \/ stored = Some (JSON_stringify (tracks s)))
  /\ audioRef s = true
  /\ bgmRef s = true.

(** The events that neither touch the library nor the duration fields. *)
Definition besideLibrary (ev : Event) : bool :=
  match ev with
  | EvFile _ _ _ _ _ | EvSelect _ | EvDelete _ | EvFieldChange _ _ | EvFieldKeyDown _ _ => false
  | _ => true
  end.

(** A stored list with an element the initializer cannot read in the
    middle, as text and as [JSON.parse] returns it. *)
Definition storedBrokenText : string :=
  ("[" ++ Stringify.track trackA ++ ",null," ++ Stringify.track trackB ++ "]")%string.

Definition storedBroken : list JSON := [trackJSON trackA; JNull; trackJSON trackB].

(** A short history: start with nothing stored, upload [songFile], select
    the new track. *)
Definition afterUpload : AppState :=
  fst (handle 32400000
         (EvFile 1741066360802 (Some songFile) true "blob:http://localhost/1"
                 "2025-03-04T05:32:40.802Z")
         (initialState 1741066300000 None None)).

Definition afterUploadStored : option string :=
  storageAfter
    (snd (handle 32400000
            (EvFile 1741066360802 (Some songFile) true "blob:http://localhost/1"
                    "2025-03-04T05:32:40.802Z")
            (initialState 1741066300000 None None)))
    None.

(** * Properties *)

(** ** Timer engine: [startTimer] *)

(** Every value a time input can hold is split and read back as its hour
    and minute. *)
Lemma timeOfDay_table :
  forallb (fun h => forallb (parsesTo h) (seq 0 60)) (seq 0 24) = true.
Proof. vm_compute. reflexivity. Qed.

Lemma timeOfDay_parses (h m : Z) :
  0 <= h <= 23 -> 0 <= m <= 59 ->
  String.eqb (timeOfDay h m) "" = false /\ targetParts (timeOfDay h m) = (Num h, Num m).
Proof.
  intros Hh Hm.
  pose proof timeOfDay_table as T.
  rewrite forallb_forall in T.
  specialize (T (Z.to_nat h)).
  rewrite in_seq in T.
  assert (Hin : (0 <= Z.to_nat h < 0 + 24)%nat) by lia.
  specialize (T Hin). rewrite forallb_forall in T.
  specialize (T (Z.to_nat m)). rewrite in_seq in T.
  assert (Hin' : (0 <= Z.to_nat m < 0 + 60)%nat) by lia.
  specialize (T Hin'). unfold parsesTo in T.
  rewrite !Z2Nat.id in T by lia.
  apply andb_true_iff in T. destruct T as [T1 T2].
  split.
  - now apply negb_true_iff in T1.
  - destruct (targetParts (timeOfDay h m)) as [[|a] [|b]]; try discriminate.
    apply andb_true_iff in T2. destruct T2 as [Ha Hb].
    apply Z.eqb_eq in Ha, Hb. now subst.
Qed.

(** The local day of a clock reading starts at most a day before it. *)
Lemma startOfLocalDay_bounds (tz t : Z) :
  t - msPerDay < startOfLocalDay tz t <= t.
Proof.
  unfold startOfLocalDay, msPerDay.
  pose proof (Z.mod_pos_bound (t + tz) 86400000 ltac:(lia)).
  pose proof (Z.div_mod (t + tz) 86400000 ltac:(lia)).
  lia.
Qed.

Lemma TimeClip_in_range (t : Z) : Z.abs t <= maxTime -> TimeClip t = DateAt t.
Proof.
  intros H. unfold TimeClip.
  destruct (Z.leb_spec (Z.abs t) maxTime); [reflexivity | lia].
Qed.

(** The time-of-day branch, computed. *)
Lemma startTimer_time (tz now1 now2 h m : Z) (s : AppState) :
  timerType s = time -> targetTime s = timeOfDay h m ->
  0 <= h <= 23 -> 0 <= m <= 59 -> clockInRange now1 ->
  startTimer tz now1 now2 s =
    setEndTime (Some (DateAt (if todayAt tz now1 h m <? now2
                              then todayAt tz now1 h m + msPerDay
                              else todayAt tz now1 h m))) s.
Proof.
  intros Hty Htg Hh Hm Hc.
  destruct (timeOfDay_parses h m Hh Hm) as [Hne Hparts].
  unfold startTimer. rewrite Hty, Htg, Hne.
  unfold targetParts in Hparts. injection Hparts as H0 H1. rewrite H0, H1.
  pose proof (startOfLocalDay_bounds tz now1) as Hb.
  unfold clockInRange, maxTime, msPerDay in *.
  assert (Hr : now1 - 86400000 < todayAt tz now1 h m < now1 + 86400000).
  { unfold todayAt, msPerHour, msPerMinute. lia. }
  unfold setHours. fold (todayAt tz now1 h m).
  rewrite TimeClip_in_range by (unfold maxTime; lia).
  unfold Date_lt. destruct (todayAt tz now1 h m <? now2).
  - unfold addOneDay. rewrite TimeClip_in_range by (unfold maxTime, msPerDay; lia).
    reflexivity.
  - reflexivity.
Qed.




(** ** Timer engine: the ticker *)

Lemma alarms_app (fx1 fx2 : list Effect) :
  alarms (fx1 ++ fx2) = (alarms fx1 + alarms fx2)%nat.
Proof. unfold alarms. rewrite filter_app, length_app. reflexivity. Qed.

(** With the alarm element mounted, [playAlarm] plays it once and leaves
    the deadline alone. *)
Lemma playAlarm_once (playingSeen : bool) (s : AppState) :
  audioRef s = true ->
  alarms (snd (playAlarm playingSeen s)) = 1%nat
  /\ endTime (fst (playAlarm playingSeen s)) = endTime s.
Proof.
  intros Ha. unfold playAlarm. rewrite Ha.
  destruct (bgmRef s && playingSeen); split; reflexivity.
Qed.

Lemma tick_idle (playingSeen : bool) (shown now : Z) (s : AppState) :
  endTime s = None ->
  tick playingSeen shown now s = (setCurrentTime (DateAt shown) s, []).
Proof. intros H. unfold tick. rewrite H. reflexivity. Qed.

Lemma tick_before (playingSeen : bool) (shown now d : Z) (s : AppState) :
  endTime s = Some (DateAt d) -> now < d ->
  tick playingSeen shown now s = (setCurrentTime (DateAt shown) s, []).
Proof.
  intros H Hlt. unfold tick. rewrite H. simpl.
  destruct (Z.leb_spec d now); [lia | reflexivity].
Qed.

Lemma tick_expired (playingSeen : bool) (shown now d : Z) (s : AppState) :
  endTime s = Some (DateAt d) -> audioRef s = true -> d <= now ->
  endTime (fst (tick playingSeen shown now s)) = None
  /\ alarms (snd (tick playingSeen shown now s)) = 1%nat.
Proof.
  intros H Ha Hle. unfold tick. rewrite H. simpl.
  destruct (Z.leb_spec d now); [| lia].
  destruct (playAlarm_once playingSeen (setCurrentTime (DateAt shown) s) Ha) as [H1 _].
  destruct (playAlarm playingSeen (setCurrentTime (DateAt shown) s)) as [s2 fx].
  split; [reflexivity | exact H1].
Qed.

(** An idle timer stays silent however long the ticker runs. *)
Lemma ticks_idle (playingSeen : bool) (clock : list (Z * Z)) :
  forall s, endTime s = None -> alarms (snd (ticks playingSeen clock s)) = 0%nat.
Proof.
  induction clock as [| [shown now] rest IH]; intros s H; [reflexivity |].
  simpl. rewrite (tick_idle _ _ _ _ H).
  specialize (IH (setCurrentTime (DateAt shown) s) H).
  destruct (ticks playingSeen rest (setCurrentTime (DateAt shown) s)) as [s2 fx2].
  exact IH.
Qed.

(** A running timer sounds the alarm once if the ticker reaches its
    deadline, and never otherwise. *)
Lemma ticks_alarm_once (playingSeen : bool) (d : Z) (clock : list (Z * Z)) :
  forall s, endTime s = Some (DateAt d) -> audioRef s = true ->
  alarms (snd (ticks playingSeen clock s)) = if reaches d clock then 1%nat else 0%nat.
Proof.
  induction clock as [| [shown now] rest IH]; intros s H Ha; [reflexivity |].
  simpl. destruct (Z.leb_spec d now) as [Hle | Hlt].
  - destruct (tick_expired playingSeen shown now d s H Ha Hle) as [Hend Hal].
    destruct (tick playingSeen shown now s) as [s1 fx1]. simpl in Hend, Hal.
    pose proof (ticks_idle playingSeen rest s1 Hend) as Hrest.
    destruct (ticks playingSeen rest s1) as [s2 fx2]. simpl in *.
    rewrite alarms_app, Hal, Hrest. reflexivity.
  - rewrite (tick_before _ _ _ _ _ H Hlt).
    specialize (IH (setCurrentTime (DateAt shown) s) H Ha).
    destruct (ticks playingSeen rest (setCurrentTime (DateAt shown) s)) as [s2 fx2].
    exact IH.
Qed.

(** C2, counterexample.  A tick half a second before the deadline shows a
    remaining time of 0 seconds, yet the alarm does not fire and the
    deadline stays set. *)
Lemma tick_shows_zero_before_alarm :
  remainingSeconds (DateAt 1500) 1000 = Num 0
  /\ getTimeLeft 1000 (runningUntil 1500) = Some "00:00:00"
  /\ tick false 1000 1000 (runningUntil 1500)
     = (setCurrentTime (DateAt 1000) (runningUntil 1500), [])
  /\ endTime (fst (tick false 1000 1000 (runningUntil 1500))) = Some (DateAt 1500).
Proof. repeat split; reflexivity. Qed.

(** C2, as amended.  While a timer is running the remaining time is
    [max(0, floor((deadline - now) / 1000))] seconds.  The alarm fires, and
    the deadline is cleared, on a tick whose clock reading has reached the
    deadline (the remaining time is then 0); a tick before the deadline
    fires nothing and keeps the deadline, also when the remaining time it
    shows is already 0.  Over any run of ticks the alarm fires exactly once
    if some tick reaches the deadline, and not at all otherwise. *)
Theorem tick_expiry (playingSeen : bool) (shown now d : Z) (s : AppState) :
  endTime s = Some (DateAt d) -> audioRef s = true ->
  remainingSeconds (DateAt d) now = Num (Z.max 0 ((d - now) / 1000))
  /\ (d <= now ->
      remainingSeconds (DateAt d) now = Num 0
      /\ endTime (fst (tick playingSeen shown now s)) = None
      /\ alarms (snd (tick playingSeen shown now s)) = 1%nat)
  /\ (now < d ->
      tick playingSeen shown now s = (setCurrentTime (DateAt shown) s, []))
  /\ (forall clock,
      alarms (snd (ticks playingSeen clock s)) = if reaches d clock then 1%nat else 0%nat).
Proof.
  intros H Ha. split; [reflexivity |]. split; [| split].
  - intros Hle. split; [| apply (tick_expired _ _ _ _ _ H Ha Hle)].
    unfold remainingSeconds. simpl. f_equal.
    assert ((d - now) / 1000 <= 0).
    { apply Z.le_trans with (0 / 1000); [apply Z.div_le_mono; lia | reflexivity]. }
    lia.
  - intros Hlt. apply (tick_before _ _ _ _ _ H Hlt).
  - intros clock. apply ticks_alarm_once; assumption.
Qed.

Lemma tick_expiry_witness :
  remainingSeconds (DateAt 5000) 5200 = Num (Z.max 0 ((5000 - 5200) / 1000))
  /\ endTime (fst (tick true 5100 5200 (runningUntil 5000))) = None
  /\ alarms (snd (tick true 5100 5200 (runningUntil 5000))) = 1%nat
  /\ tick true 4100 4200 (runningUntil 5000)
     = (setCurrentTime (DateAt 4100) (runningUntil 5000), [])
  /\ alarms (snd (ticks true [(3100, 3200); (4100, 4200); (5100, 5200); (6100, 6200)]
                     (runningUntil 5000))) = 1%nat.
Proof.
  destruct (tick_expiry true 5100 5200 5000 (runningUntil 5000) eq_refl eq_refl)
    as (H1 & H2 & _ & H4).
  destruct (tick_expiry true 4100 4200 5000 (runningUntil 5000) eq_refl eq_refl)
    as (_ & _ & H3 & _).
  split; [exact H1 |].
  split; [apply H2; lia |].
  split; [apply H2; lia |].
  split; [apply H3; lia |].
  apply (H4 [(3100, 3200); (4100, 4200); (5100, 5200); (6100, 6200)]).
Defined.

(** ** Upload validator *)

Lemma messages_differ : sizeErrorMessage <> formatErrorMessage.
Proof. discriminate. Qed.

Lemma includes_In (xs : list string) (x : string) :
  includes xs x = true <-> In x xs.
Proof.
  unfold includes. rewrite existsb_exists. split.
  - intros (y & Hy & He). apply String.eqb_eq in He. now subst.
  - intros H. exists x. split; [exact H | apply String.eqb_refl].
Qed.

(** C3, counterexample.  A file that is both too large and of a type
    outside the accepted set is rejected with the size error, not with the
    format error. *)
Lemma oversize_wrong_type_gets_size_error :
  ~ In "text/plain" ACCEPTED_FORMATS
  /\ uploadError (fst (fileChange 0 (Some (mkFile "notes.txt" 10485761 "text/plain"))
                         (durationMode 0 0 0)))
     = Some sizeErrorMessage
  /\ uploadError (fst (fileChange 0 (Some (mkFile "notes.txt" 10485761 "text/plain"))
                         (durationMode 0 0 0)))
     <> Some formatErrorMessage.
Proof.
  split; [| split].
  - rewrite <- includes_In. discriminate.
  - reflexivity.
  - discriminate.
Qed.

(** C3, as amended.  The validator rejects with the size error exactly when
    the byte size exceeds 10,485,760; it rejects with the format error
    exactly when the size is within that limit and the declared MIME type is
    not one of the four accepted types; it admits the file (a read is
    started) exactly when neither holds.  On a rejection no read is started
    and nothing but the error message changes: the track list is the one
    before. *)
Theorem fileChange_verdict (now : Z) (f : File) (s : AppState) :
  MAX_FILE_SIZE = 10485760
  /\ (uploadError (fst (fileChange now (Some f) s)) = Some sizeErrorMessage
      <-> 10485760 < file_size f)
  /\ (uploadError (fst (fileChange now (Some f) s)) = Some formatErrorMessage
      <-> file_size f <= 10485760 /\ ~ In (file_type f) ACCEPTED_FORMATS)
  /\ (snd (fileChange now (Some f) s) = Some (mkPending f now (tracks s))
      <-> file_size f <= 10485760 /\ In (file_type f) ACCEPTED_FORMATS)
  /\ (snd (fileChange now (Some f) s) = None
      <-> 10485760 < file_size f \/ ~ In (file_type f) ACCEPTED_FORMATS)
  /\ (snd (fileChange now (Some f) s) = None ->
      tracks (fst (fileChange now (Some f) s)) = tracks s
      /\ exists message,
          fst (fileChange now (Some f) s) = setUploadError (Some message) s).
Proof.
  split; [reflexivity |].
  change 10485760 with MAX_FILE_SIZE.
  pose proof messages_differ as Hd.
  unfold fileChange.
  destruct (Z.ltb_spec MAX_FILE_SIZE (file_size f)) as [Hbig | Hok].
  - cbn [fst snd uploadError setUploadError tracks].
    repeat match goal with |- _ /\ _ => split end.
    + split; [intros _; exact Hbig | reflexivity].
    + split; [intros H; congruence | intros [H _]; lia].
    + split; [intros H; discriminate H | intros [H _]; lia].
    + split; [intros _; left; exact Hbig | reflexivity].
    + intros _. split; [reflexivity | eexists; reflexivity].
  - destruct (includes ACCEPTED_FORMATS (file_type f)) eqn:Hacc;
      cbn [fst snd negb uploadError setUploadError tracks].
    + assert (Hin : In (file_type f) ACCEPTED_FORMATS) by (apply includes_In; exact Hacc).
      repeat match goal with |- _ /\ _ => split end.
      * split; [intros H; discriminate H | lia].
      * split; [intros H; discriminate H | intros [_ H]; contradiction].
      * split; [intros _; split; assumption | reflexivity].
      * split; [intros H; discriminate H | intros [H | H]; [lia | contradiction]].
      * intros H; discriminate H.
    + assert (Hout : ~ In (file_type f) ACCEPTED_FORMATS).
      { intros H. apply includes_In in H. congruence. }
      repeat match goal with |- _ /\ _ => split end.
      * split; [intros H; congruence | lia].
      * split; [intros _; split; assumption | reflexivity].
      * split; [intros H; discriminate H | intros [_ H]; contradiction].
      * split; [intros _; right; exact Hout | reflexivity].
      * intros _. split; [reflexivity | eexists; reflexivity].
Qed.

(** ** Admission of an upload *)

Lemma split_nonempty (sep : ascii) (s : string) : split sep s <> [].
Proof.
  destruct s as [| c rest]; simpl; [discriminate |].
  destruct (Ascii.eqb c sep); [discriminate |].
  destruct (split sep rest); discriminate.
Qed.

(** The first segment of a split, which the title is taken from, is a
    prefix of the string. *)
Lemma first_segment_prefix (s : string) :
  String.prefix (nth 0 (split "." s) EmptyString) s = true.
Proof.
  induction s as [| c rest IH]; [reflexivity |].
  simpl. destruct (Ascii.eqb c ".") eqn:E; [reflexivity |].
  pose proof (split_nonempty "." rest) as Hne.
  destruct (split "." rest) as [| seg segs]; [contradiction |].
  simpl in *. destruct (ascii_dec c c); [exact IH | contradiction].
Qed.

(** For a name with a single dot the title is the name without its
    extension. *)
Lemma first_segment_single_dot (base rest : string) :
  noDot base = true ->
  nth 0 (split "." (base ++ "." ++ rest)) EmptyString = base.
Proof.
  induction base as [| c base IH]; intros H; simpl.
  - reflexivity.
  - simpl in H. apply andb_true_iff in H. destruct H as [Hc Hb].
    apply negb_true_iff in Hc. rewrite Hc.
    specialize (IH Hb).
    change (base ++ String "." rest)%string with (base ++ "." ++ rest)%string.
    pose proof (split_nonempty "." (base ++ "." ++ rest)) as Hne.
    destruct (split "." (base ++ "." ++ rest)) as [| seg segs]; [contradiction |].
    simpl in IH. subst seg. reflexivity.
Qed.

(** What an admitted upload does once the file is read: the new track has
    the admission timestamp as id and the placeholder as composer; it is
    appended to the track list the handler closed over, persisted with that
    list and selected; the playing flag is left alone and no call is made on
    the BGM element. *)
Lemma readerOnload_admits (p : PendingRead) (blobUrl isoNow : string) (s : AppState) :
  let t := newTrack p blobUrl isoNow in
  id t = Z_to_string (read_timestamp p)
  /\ composer t = composerPlaceholder
  /\ originalName t = file_name (read_file p)
  /\ readerOnload p true blobUrl isoNow s
     = (setShowUploadForm false
          (setSelectedTrack (Some t) (setTracks (read_tracks p ++ [t]) s)),
        [StorageSetItem storageKey (JSON_stringify (read_tracks p ++ [t]))])
  /\ isBGMPlaying (fst (readerOnload p true blobUrl isoNow s)) = isBGMPlaying s.
Proof. repeat split. Qed.

(** C4, at the failing input.  For the admitted file [my.song.mp3] the code
    takes [mp3] as the extension (line 271) but [my] as the title (line 293):
    the title is not the file name with its extension stripped, [my.song]. *)
Theorem upload_title_stops_at_first_dot :
  snd (fileChange 1741066360802 (Some songFile) (durationMode 0 0 0)) = Some songRead
  /\ fileExt songFile = "mp3"
  /\ file_name songFile = ("my.song" ++ "." ++ fileExt songFile)%string
  /\ title (newTrack songRead "blob:http://localhost/1" "2025-03-04T05:32:40.802Z") = "my"
  /\ title (newTrack songRead "blob:http://localhost/1" "2025-03-04T05:32:40.802Z")
     <> "my.song".
Proof. repeat split; discriminate. Qed.

(** ** Initial track library *)

(** On a readable list the loop revokes every object URL and does not
    throw; on any other list it throws. *)
Lemma forEachRevoke_readable (items : list JSON) :
  forallb hasFilename items = true ->
  forEachRevoke items = (map RevokeObjectURL (flat_map staleUrl items), false).
Proof.
  induction items as [| track rest IH]; intros H; [reflexivity |].
  simpl in H. apply andb_true_iff in H. destruct H as [Ht Hrest].
  simpl. rewrite (IH Hrest). unfold revokeStale, staleUrl.
  destruct track; try discriminate Ht. simpl in Ht.
  destruct (property "filename" members) as [[| | | url | |] |]; try discriminate Ht.
  rewrite map_app. destruct (startsWith "blob:" url); reflexivity.
Qed.

Lemma forEachRevoke_unreadable (items : list JSON) :
  forallb hasFilename items = false -> snd (forEachRevoke items) = true.
Proof.
  induction items as [| track rest IH]; intros H; [discriminate H |].
  simpl in H. simpl. unfold revokeStale.
  destruct track; try reflexivity. simpl in H.
  destruct (property "filename" members) as [[| | | url | |] |]; try reflexivity.
  simpl in H. specialize (IH H).
  destruct (forEachRevoke rest) as [fx threw]. exact IH.
Qed.

(** C5, counterexample.  A stored entry that is the empty string does not
    parse, yet nothing is logged: the initializer treats it as absent. *)
Lemma empty_entry_is_not_logged :
  present (Some "") = false
  /\ initTracks (Some "") None = ([], [])
  /\ ~ errorLogged (snd (initTracks (Some "") None)).
Proof. repeat split. intros H. exact H. Qed.

(** Nor is a stored list logged whose objects lack every member of a track
    but [filename]. *)
Lemma bare_entry_is_not_logged (text : string) :
  present (Some text) = true -> initTracks (Some text) (Some storedBare) = ([], []).
Proof.
  unfold present, initTracks. intros H. apply negb_true_iff in H. now rewrite H.
Qed.

(** C5, as amended.  The initial track list is empty whatever was stored,
    and the initializer always returns.  A stored entry that is absent or
    the empty string makes no call at all.  A non-empty entry that parses to
    an array of objects with a string [filename] has each of its [blob:]
    URLs revoked, in order, and nothing logged.  Any other non-empty entry
    (it does not parse, or it parses to something else) gets the error
    logged. *)
Theorem initTracks_contract (saved : option string) (parsed : option JSON) :
  fst (initTracks saved parsed) = []
  /\ tracks (initialState 0 saved parsed) = []
  /\ (present saved = false -> snd (initTracks saved parsed) = [])
  /\ (present saved = true -> readable parsed = true ->
      snd (initTracks saved parsed) = map RevokeObjectURL (staleUrls parsed))
  /\ (present saved = true -> readable parsed = false ->
      errorLogged (snd (initTracks saved parsed))).
Proof.
  assert (H0 : fst (initTracks saved parsed) = []).
  { unfold initTracks. destruct saved as [text |]; [| reflexivity].
    destruct (String.eqb text ""); [reflexivity |].
    destruct parsed as [j |]; [| reflexivity].
    destruct (revokeParsed j); reflexivity. }
  split; [exact H0 |]. split; [exact H0 |].
  unfold initTracks, present, errorLogged.
  destruct saved as [text |]; [destruct (String.eqb text "") |]; simpl.
  - repeat split; intros; discriminate.
  - split; [intros H; discriminate H |]. split; intros _ Hr.
    + destruct parsed as [[| | | | items |] |]; try discriminate Hr.
      simpl in *. rewrite (forEachRevoke_readable items Hr). simpl.
      apply app_nil_r.
    + destruct parsed as [[| | | | items |] |]; simpl; auto.
      simpl in Hr. pose proof (forEachRevoke_unreadable items Hr) as Ht.
      destruct (forEachRevoke items) as [fx threw]. simpl in Ht. subst threw.
      apply in_or_app. right. left. reflexivity.
  - repeat split; intros; discriminate.
Qed.

Lemma initTracks_contract_witness :
  snd (initTracks (Some (JSON_stringify [trackA; trackB])) (Some storedTwo))
  = map RevokeObjectURL (staleUrls (Some storedTwo))
  /\ errorLogged (snd (initTracks (Some "{") None))
  /\ errorLogged (snd (initTracks (Some "[null]") (Some (JArray [JNull]))))
  /\ snd (initTracks None None) = [].
Proof.
  split; [| split; [| split]].
  - apply (proj1 (proj2 (proj2 (proj2
             (initTracks_contract (Some (JSON_stringify [trackA; trackB]))
                (Some storedTwo)))))); reflexivity.
  - apply (proj2 (proj2 (proj2 (proj2
             (initTracks_contract (Some "{") None))))); reflexivity.
  - apply (proj2 (proj2 (proj2 (proj2
             (initTracks_contract (Some "[null]") (Some (JArray [JNull]))))))); reflexivity.
  - apply (proj1 (proj2 (proj2 (initTracks_contract None None)))); reflexivity.
Defined.

(** ** Track list: deletion *)

(** The filter keeps exactly the tracks with another id. *)
Lemma withoutTrack_In (track t : BGMTrack) (ts : list BGMTrack) :
  In t (withoutTrack track ts) <-> In t ts /\ id t <> id track.
Proof.
  unfold withoutTrack. rewrite filter_In.
  destruct (String.eqb_spec (id t) (id track)) as [E | N]; simpl.
  - split; [intros [_ H]; discriminate H | intros [_ H]; contradiction].
  - split; [intros [H _]; split; assumption | intros [H _]; split; [exact H | reflexivity]].
Qed.

Lemma withoutTrack_absent (track : BGMTrack) (ts : list BGMTrack) :
  ~ In (id track) (map id ts) -> withoutTrack track ts = ts.
Proof.
  induction ts as [| a rest IH]; intros H; [reflexivity |].
  simpl in *. destruct (String.eqb_spec (id a) (id track)) as [E | N].
  - exfalso. apply H. left. exact E.
  - simpl. f_equal. apply IH. intros Hin. apply H. right. exact Hin.
Qed.

(** With unique ids, deletion takes exactly the one track out of the list
    and keeps the others in order. *)
Lemma withoutTrack_split (track : BGMTrack) (ts : list BGMTrack) :
  In track ts -> NoDup (map id ts) ->
  exists l1 l2, ts = l1 ++ track :: l2 /\ withoutTrack track ts = l1 ++ l2.
Proof.
  induction ts as [| a rest IH]; intros Hin Hnd; [contradiction |].
  simpl in Hnd. inversion Hnd as [| x l Hnotin Hnd']. subst x l.
  simpl. destruct (String.eqb_spec (id a) (id track)) as [E | N].
  - assert (Ha : a = track).
    { destruct Hin as [H | H]; [exact H |].
      exfalso. apply Hnotin. rewrite E. apply in_map. exact H. }
    subst a. exists [], rest. split; [reflexivity |].
    simpl. apply withoutTrack_absent. exact Hnotin.
  - destruct Hin as [H | H]; [subst a; contradiction |].
    destruct (IH H Hnd') as (l1 & l2 & E1 & E2).
    exists (a :: l1), l2. simpl. split; [now rewrite E1 | now rewrite E2].
Qed.

Lemma isSelected_same (track : BGMTrack) (s : AppState) :
  selectedTrack s = Some track -> isSelected track s = true.
Proof. intros H. unfold isSelected. rewrite H. apply String.eqb_refl. Qed.


(** C6.  Deleting the selected track (playing or not; ids in the list are
    unique and the track's source is an object URL) pauses the BGM element,
    clears the playing flag and the selection, revokes the track's object
    URL, and stores and persists the list without that track: the list is
    shorter by exactly one. *)
Theorem deleteTrack_selected (track : BGMTrack) (s : AppState) :
  selectedTrack s = Some track -> In track (tracks s) ->
  NoDup (map id (tracks s)) -> bgmRef s = true ->
  startsWith "blob:" (filename track) = true ->
  isBGMPlaying (fst (deleteTrack track s)) = false
  /\ selectedTrack (fst (deleteTrack track s)) = None
  /\ snd (deleteTrack track s)
     = [ BgmPause; RevokeObjectURL (filename track);
         StorageSetItem storageKey (JSON_stringify (tracks (fst (deleteTrack track s)))) ]
  /\ ~ In track (tracks (fst (deleteTrack track s)))
  /\ S (List.length (tracks (fst (deleteTrack track s)))) = List.length (tracks s)
  /\ exists l1 l2,
      tracks s = l1 ++ track :: l2 /\ tracks (fst (deleteTrack track s)) = l1 ++ l2.
Proof.
  intros Hsel Hin Hnd Href Hblob.
  destruct (withoutTrack_split track (tracks s) Hin Hnd) as (l1 & l2 & E1 & E2).
  unfold deleteTrack, pauseIfPresent.
  rewrite (isSelected_same track s Hsel), Href, Hblob. simpl.
  repeat split.
  - intros H. apply withoutTrack_In in H. destruct H as [_ H]. now apply H.
  - rewrite E2, E1, !length_app. simpl. lia.
  - exists l1, l2. split; assumption.
Qed.

Lemma deleteTrack_selected_witness :
  isBGMPlaying (fst (deleteTrack trackA playingA)) = false
  /\ selectedTrack (fst (deleteTrack trackA playingA)) = None
  /\ snd (deleteTrack trackA playingA)
     = [ BgmPause; RevokeObjectURL (filename trackA);
         StorageSetItem storageKey (JSON_stringify (tracks (fst (deleteTrack trackA playingA)))) ]
  /\ ~ In trackA (tracks (fst (deleteTrack trackA playingA)))
  /\ S (List.length (tracks (fst (deleteTrack trackA playingA)))) = List.length (tracks playingA)
  /\ exists l1 l2,
      tracks playingA = l1 ++ trackA :: l2
      /\ tracks (fst (deleteTrack trackA playingA)) = l1 ++ l2.
Proof.
  apply (deleteTrack_selected trackA playingA).
  - reflexivity.
  - left. reflexivity.
  - repeat constructor; simpl; intuition discriminate.
  - reflexivity.
  - reflexivity.
Defined.



(** ** BGM player: a change of the selected track *)

(** C7, counterexample.  With [trackA] loaded, selecting [trackB] leaves the
    loaded flag set and does not call [load()]: the player stays in
    loaded-idle with its control enabled. *)
Lemma selecting_another_track_keeps_loaded :
  selectedTrack (fst (selectTrack trackB loadedA)) = Some trackB
  /\ isBGMLoaded (fst (selectedTrackChanged (fst (selectTrack trackB loadedA)))) = true
  /\ ~ In BgmLoad (snd (selectedTrackChanged (fst (selectTrack trackB loadedA))))
  /\ playbackState (fst (selectedTrackChanged (fst (selectTrack trackB loadedA))))
     = LoadedIdle.
Proof.
  repeat split. simpl. intuition discriminate.
Qed.

(** C7, as amended.  When the selected track changes the player attaches
    its listeners again and applies the volume again; the state is left as
    it is, so the loaded flag is not reset; [load()] is called exactly when
    the loaded flag is false at that moment, and then the player is in
    not-loaded, its control disabled, until the track signals that it can
    play through (no other event sets the loaded flag).  Once a track has
    loaded, selecting another track leaves the player in loaded-idle, the
    playing flag cleared and the control enabled.  Only an error of the
    element returns a loaded player to not-loaded: no other event, a
    selection, an upload or a deletion included, clears the loaded flag. *)
Theorem selectedTrackChanged_contract (tz : Z) (s : AppState) :
  fst (selectedTrackChanged s) = s
  /\ (forall t, isBGMLoaded (fst (selectTrack t s)) = isBGMLoaded s)
  /\ (In BgmLoad (snd (selectedTrackChanged s))
      <-> bgmRef s = true /\ isBGMLoaded s = false)
  /\ (bgmRef s = true ->
      In BgmSetListeners (snd (selectedTrackChanged s))
      /\ In (BgmSetVolume (volume s)) (snd (selectedTrackChanged s)))
  /\ (isBGMLoaded s = false ->
      playbackState (fst (selectedTrackChanged s)) = NotLoaded
      /\ playbackState (fst (onCanPlayThrough (fst (selectedTrackChanged s)))) <> NotLoaded)
  /\ playbackState (fst (onBgmError s)) = NotLoaded
  /\ (forall t, isBGMLoaded s = true ->
      isBGMPlaying (fst (selectedTrackChanged (fst (selectTrack t s)))) = false
      /\ playbackState (fst (selectedTrackChanged (fst (selectTrack t s)))) = LoadedIdle
      /\ ~ In BgmLoad (snd (selectedTrackChanged (fst (selectTrack t s)))))
  /\ (forall ev, isBGMLoaded s = true ->
      isBGMLoaded (fst (handle tz ev s)) = false -> ev = EvBgmError)
  /\ (forall ev, isBGMLoaded s = false ->
      isBGMLoaded (fst (handle tz ev s)) = true -> ev = EvCanPlayThrough).
Proof.
  assert (Hkeep : forall ev, ev <> EvBgmError -> ev <> EvCanPlayThrough ->
                             isBGMLoaded (fst (handle tz ev s)) = isBGMLoaded s).
  { intros ev N1 N2. destruct ev; try contradiction;
      unfold handle, startTimer, stopTimer, tick, playAlarm, toggleBGM, playSettled,
        fieldKeyDown, fileChange, readerOnload, selectTrack, deleteTrack, pauseIfPresent;
      repeat match goal with
             | |- context [match ?x with _ => _ end] =>
                 lazymatch x with
                 | context [match _ with _ => _ end] => fail
                 | _ => destruct x
                 end
             end;
      reflexivity. }
  split; [reflexivity |]. split; [reflexivity |].
  split.
  { unfold selectedTrackChanged, loadAudioCleanup, loadAudio. simpl.
    destruct (bgmRef s), (isBGMLoaded s); simpl; split;
      try tauto; intuition discriminate. }
  split.
  { intros Hb. unfold selectedTrackChanged, loadAudioCleanup, loadAudio. rewrite Hb.
    simpl. tauto. }
  split.
  { intros Hl. unfold playbackState. simpl. rewrite Hl.
    split; [reflexivity | destruct (isBGMPlaying s); discriminate]. }
  split; [reflexivity |].
  split.
  { intros t Hl. unfold playbackState, selectedTrackChanged, loadAudioCleanup, loadAudio.
    simpl. rewrite Hl. split; [reflexivity |]. split; [reflexivity |].
    destruct (bgmRef s); simpl; intuition discriminate. }
  split.
  - intros ev Hl Hc.
    destruct ev; try reflexivity;
      match goal with
      | |- ?e = EvBgmError =>
          exfalso; assert (K : isBGMLoaded (fst (handle tz e s)) = isBGMLoaded s)
            by (try reflexivity; apply Hkeep; discriminate);
          congruence
      end.
  - intros ev Hl Hc.
    destruct ev; try reflexivity;
      match goal with
      | |- ?e = EvCanPlayThrough =>
          exfalso; assert (K : isBGMLoaded (fst (handle tz e s)) = isBGMLoaded s)
            by (try reflexivity; apply Hkeep; discriminate);
          congruence
      end.
Qed.

(** ** BGM player: [toggleBGM] *)

(** C8.  [toggleBGM] does nothing when the player is not loaded.  From
    playing it pauses, rewinds to the start and goes to loaded-idle.  From
    loaded-idle it calls [play()]; when the promise is fulfilled the player
    is playing, when it is rejected the playing flag is cleared, the player
    is in loaded-idle and the error is logged. *)
Theorem toggleBGM_contract (play : PlayCall) (s : AppState) :
  (playbackState s = NotLoaded -> toggleBGM play s = (s, []))
  /\ (bgmRef s = true -> playbackState s = Playing ->
      toggleBGM play s = (setIsBGMPlaying false s, [BgmPause; BgmSetCurrentTime 0])
      /\ playbackState (fst (toggleBGM play s)) = LoadedIdle)
  /\ (bgmRef s = true -> playbackState s = LoadedIdle ->
      toggleBGM ReturnsPromise s = (s, [BgmPlay])
      /\ playbackState (fst (playSettled Fulfilled (fst (toggleBGM ReturnsPromise s))))
         = Playing
      /\ playSettled Rejected (fst (toggleBGM ReturnsPromise s))
         = (setIsBGMPlaying false s, [ConsoleError "Error playing BGM:"])
      /\ playbackState (fst (playSettled Rejected (fst (toggleBGM ReturnsPromise s))))
         = LoadedIdle)
  /\ (forall s', isBGMLoaded s' = true ->
      playbackState (fst (playSettled Fulfilled s')) = Playing
      /\ playbackState (fst (playSettled Rejected s')) = LoadedIdle
      /\ snd (playSettled Rejected s') = [ConsoleError "Error playing BGM:"]).
Proof.
  split; [| split; [| split]].
  - intros H. unfold playbackState in H. unfold toggleBGM.
    destruct (isBGMLoaded s); [destruct (isBGMPlaying s); discriminate H |].
    rewrite andb_false_r. reflexivity.
  - intros Href H. unfold playbackState in H.
    destruct (isBGMLoaded s) eqn:Hl; [| discriminate H].
    destruct (isBGMPlaying s) eqn:Hp; [| discriminate H].
    unfold toggleBGM. rewrite Href, Hl, Hp. simpl.
    split; [reflexivity |]. unfold playbackState. simpl. now rewrite Hl.
  - intros Href H. unfold playbackState in H.
    destruct (isBGMLoaded s) eqn:Hl; [| discriminate H].
    destruct (isBGMPlaying s) eqn:Hp; [discriminate H |].
    unfold toggleBGM. rewrite Href, Hl, Hp. simpl.
    unfold playbackState. simpl. rewrite Hl. repeat split.
  - intros s' H. unfold playbackState. simpl. rewrite H. repeat split.
Qed.

(** ** Duration fields *)

(** A digit key carries a digit. *)
Lemma keyDigit_range (c : ascii) : isDigitKey c = true -> 0 <= keyDigit c <= 9.
Proof.
  unfold isDigitKey, keyDigit. intros H.
  apply andb_true_iff in H. destruct H as [H1 H2].
  apply Z.leb_le in H1, H2. lia.
Qed.

Lemma withField_get (f : Field) (v : Z) (d : DurationInput) :
  getField f (withField f v d) = v.
Proof. destruct f; reflexivity. Qed.

Lemma withField_range (f : Field) (v : Z) (d : DurationInput) :
  durationInRange d -> 0 <= v <= fieldMax f -> durationInRange (withField f v d).
Proof.
  unfold durationInRange. intros (Hh & Hm & Hs) Hv.
  destruct f; simpl in *; repeat split; lia.
Qed.

Lemma getField_range (f : Field) (d : DurationInput) :
  durationInRange d -> 0 <= getField f d <= fieldMax f.
Proof.
  unfold durationInRange. intros (Hh & Hm & Hs). destruct f; simpl; lia.
Qed.

Lemma fieldMax_pos (f : Field) : 0 < fieldMax f < 100.
Proof. destruct f; simpl; lia. Qed.

(** On a field value in range the remainder of the rolling entry is the
    mathematical one, below 100. *)
Lemma rolling_value (v d : Z) :
  0 <= v -> 0 <= d -> Z.rem (v * 10 + d) 100 = (v * 10 + d) mod 100
                      /\ 0 <= Z.rem (v * 10 + d) 100 < 100.
Proof.
  intros Hv Hd. split.
  - apply Z.rem_mod_nonneg; lia.
  - apply Z.rem_bound_pos; lia.
Qed.

(** C9.  Every mutation of the duration input keeps hours in [0,23] and
    minutes and seconds in [0,59]: direct entry stores the parsed number
    clamped to the field's range, the arrow keys add or subtract 1 within
    the range, and a digit key stores [(old * 10 + digit) mod 100] cut at
    the field's maximum. *)
Theorem duration_edits_keep_range (e : DurationEdit) (s : AppState) :
  durationInRange (durationInput s) ->
  durationInRange (durationInput (applyEdit e s))
  /\ (forall f parsed,
      getField f (durationInput (applyEdit (DirectEntry f parsed) s))
      = Z.max 0 (Z.min (fieldMax f) (orZero parsed)))
  /\ (forall f,
      getField f (durationInput (applyEdit (KeyDown f ArrowUp) s))
      = Z.min (fieldMax f) (getField f (durationInput s) + 1)
      /\ getField f (durationInput (applyEdit (KeyDown f ArrowDown) s))
         = Z.max 0 (getField f (durationInput s) - 1))
  /\ (forall f c, isDigitKey c = true ->
      0 <= keyDigit c <= 9
      /\ getField f (durationInput (applyEdit (KeyDown f (Char c)) s))
         = Z.min (fieldMax f) ((getField f (durationInput s) * 10 + keyDigit c) mod 100)).
Proof.
  intros Hr. split; [| split; [| split]].
  - destruct e as [f parsed | f key]; simpl.
    + unfold fieldChange. simpl. apply withField_range; [exact Hr |].
      pose proof (fieldMax_pos f). lia.
    + pose proof (getField_range f _ Hr) as Hv. pose proof (fieldMax_pos f) as Hmax.
      unfold fieldKeyDown.
      destruct key as [| | | c |]; simpl; try exact Hr.
      * apply withField_range; [exact Hr | lia].
      * apply withField_range; [exact Hr | lia].
      * destruct (getField f (durationInput s) =? 0); exact Hr.
      * destruct (isDigitKey c) eqn:Hc; simpl; [| exact Hr].
        apply withField_range; [exact Hr |].
        pose proof (keyDigit_range c Hc) as Hd.
        pose proof (rolling_value (getField f (durationInput s)) (keyDigit c)
                      ltac:(lia) ltac:(lia)) as [_ Hb].
        lia.
  - intros f parsed. simpl. unfold fieldChange. simpl. apply withField_get.
  - intros f. simpl. split; apply withField_get.
  - intros f c Hc. pose proof (keyDigit_range c Hc) as Hd. split; [exact Hd |].
    pose proof (getField_range f _ Hr) as Hv.
    simpl. unfold fieldKeyDown. rewrite Hc. simpl. rewrite withField_get.
    pose proof (rolling_value (getField f (durationInput s)) (keyDigit c)
                  ltac:(lia) ltac:(lia)) as [E _].
    now rewrite E.
Qed.

Lemma duration_edits_keep_range_witness :
  durationInRange (durationInput (applyEdit (KeyDown Hours (Char "7")) (durationMode 2 59 0)))
  /\ getField Hours (durationInput (applyEdit (KeyDown Hours (Char "7")) (durationMode 2 59 0)))
     = Z.min (fieldMax Hours) ((2 * 10 + keyDigit "7") mod 100)
  /\ getField Minutes (durationInput (applyEdit (KeyDown Minutes ArrowUp) (durationMode 2 59 0)))
     = Z.min (fieldMax Minutes) (59 + 1)
  /\ getField Seconds (durationInput (applyEdit (DirectEntry Seconds (Num 75)) (durationMode 2 59 0)))
     = Z.max 0 (Z.min (fieldMax Seconds) (orZero (Num 75))).
Proof.
  assert (Hr : durationInRange (durationInput (durationMode 2 59 0)))
    by (unfold durationInRange; simpl; lia).
  destruct (duration_edits_keep_range (KeyDown Hours (Char "7")) (durationMode 2 59 0) Hr)
    as (H1 & H2 & H3 & H4).
  split; [exact H1 |].
  split; [apply (H4 Hours "7"%char); reflexivity |].
  split; [apply (H3 Minutes) |].
  apply (H2 Seconds (Num 75)).
Defined.

(** ** Unique ids

    The deletion theorems assume that the ids in the track list are
    unique.  Ids are admission timestamps; as long as the clock has moved on
    between two admissions, every list the component builds has increasing
    timestamps, hence unique ids. *)

Lemma to_int_proper (z : Z) : Z.to_int z <> Decimal.Pos Decimal.Nil
                              /\ Z.to_int z <> Decimal.Neg Decimal.Nil.
Proof.
  pose proof (DecimalZ.to_of (Z.to_int z)) as H. rewrite DecimalZ.of_to in H.
  split; intros E; rewrite E in H; discriminate H.
Qed.

Lemma Z_to_string_inj (a b : Z) : Z_to_string a = Z_to_string b -> a = b.
Proof.
  unfold Z_to_string. intros H.
  apply DecimalZ.to_int_inj.
  destruct (to_int_proper a) as [Ha1 Ha2]. destruct (to_int_proper b) as [Hb1 Hb2].
  pose proof (NilZero.isi (Z.to_int a) Ha1 Ha2) as Ia.
  pose proof (NilZero.isi (Z.to_int b) Hb1 Hb2) as Ib.
  rewrite H in Ia. rewrite Ia in Ib. now injection Ib.
Qed.

Lemma sorted_NoDup (stamps : list Z) : StronglySorted Z.lt stamps -> NoDup stamps.
Proof.
  induction 1 as [| a l Hs IH Hall]; constructor; [| exact IH].
  intros Hin. rewrite Forall_forall in Hall. specialize (Hall a Hin). lia.
Qed.

Lemma sorted_filter (f : Z -> bool) (stamps : list Z) :
  StronglySorted Z.lt stamps -> StronglySorted Z.lt (filter f stamps).
Proof.
  induction 1 as [| a l Hs IH Hall]; simpl; [constructor |].
  destruct (f a); [| exact IH].
  constructor; [exact IH |].
  rewrite Forall_forall in *. intros x Hx. apply filter_In in Hx. apply Hall, Hx.
Qed.

Lemma sorted_snoc (stamps : list Z) (z : Z) :
  StronglySorted Z.lt stamps -> Forall (fun y => y < z) stamps ->
  StronglySorted Z.lt (stamps ++ [z]).
Proof.
  induction 1 as [| a l Hs IH Hall]; intros Hb; simpl.
  - constructor; constructor.
  - inversion Hb as [| x l' Ha Hl]. subst.
    constructor; [apply IH; exact Hl |].
    apply Forall_app. split; [exact Hall | constructor; [exact Ha | constructor]].
Qed.

Lemma admittedBefore_nil (bound : Z) : admittedBefore bound [].
Proof. exists []. repeat split; constructor. Qed.

Lemma admittedBefore_later (bound bound' : Z) (ts : list BGMTrack) :
  bound <= bound' -> admittedBefore bound ts -> admittedBefore bound' ts.
Proof.
  intros Hle (stamps & Hm & Hs & Hb). exists stamps. repeat split; try assumption.
  rewrite Forall_forall in *. intros x Hx. specialize (Hb x Hx). lia.
Qed.

(** An admission closes over a list admitted before its own timestamp. *)
Lemma fileChange_admittedBefore (now : Z) (f : File) (s : AppState) (p : PendingRead) :
  admittedBefore now (tracks s) -> snd (fileChange now (Some f) s) = Some p ->
  admittedBefore (read_timestamp p) (read_tracks p).
Proof.
  intros Hadm. unfold fileChange.
  destruct (MAX_FILE_SIZE <? file_size f); [discriminate |].
  destruct (negb (includes ACCEPTED_FORMATS (file_type f))); [discriminate |].
  simpl. intros H. injection H as H. subst p. exact Hadm.
Qed.

Lemma readerOnload_admittedBefore (p : PendingRead) (result : bool)
  (blobUrl isoNow : string) (s : AppState) (bound : Z) :
  admittedBefore (read_timestamp p) (read_tracks p) ->
  admittedBefore bound (tracks s) -> read_timestamp p < bound ->
  admittedBefore bound (tracks (fst (readerOnload p result blobUrl isoNow s))).
Proof.
  intros (stamps & Hm & Hs & Hb) Hold Hlt. unfold readerOnload.
  destruct result; simpl; [| exact Hold].
  exists (stamps ++ [read_timestamp p]). repeat split.
  - rewrite !map_app, Hm. reflexivity.
  - apply sorted_snoc; assumption.
  - apply Forall_app. split; [| constructor; [exact Hlt | constructor]].
    rewrite Forall_forall in *. intros x Hx. specialize (Hb x Hx). lia.
Qed.

Lemma withoutTrack_stamps (track : BGMTrack) (ts : list BGMTrack) :
  forall stamps, map id ts = map Z_to_string stamps ->
  map id (withoutTrack track ts)
  = map Z_to_string (filter (fun z => negb (String.eqb (Z_to_string z) (id track))) stamps).
Proof.
  induction ts as [| a rest IH]; intros [| z stamps] H; try discriminate H; [reflexivity |].
  simpl in H. injection H as Ha Hrest. simpl. rewrite <- Ha.
  destruct (String.eqb (id a) (id track)); simpl.
  - apply IH. exact Hrest.
  - rewrite Ha. f_equal. apply IH. exact Hrest.
Qed.

Lemma deleteTrack_admittedBefore (track : BGMTrack) (s : AppState) (bound : Z) :
  admittedBefore bound (tracks s) ->
  admittedBefore bound (tracks (fst (deleteTrack track s))).
Proof.
  intros (stamps & Hm & Hs & Hb).
  exists (filter (fun z => negb (String.eqb (Z_to_string z) (id track))) stamps).
  unfold deleteTrack. destruct (isSelected track s); simpl; repeat split.
  all: try (apply withoutTrack_stamps; exact Hm).
  all: try (apply sorted_filter; exact Hs).
  all: rewrite Forall_forall in *; intros x Hx; apply filter_In in Hx; apply Hb, Hx.
Qed.

(** Lists admitted in clock order have unique ids. *)
Lemma admittedBefore_NoDup (bound : Z) (ts : list BGMTrack) :
  admittedBefore bound ts -> NoDup (map id ts).
Proof.
  intros (stamps & Hm & Hs & _). rewrite Hm.
  apply sorted_NoDup in Hs. clear Hm.
  induction Hs as [| z l Hnotin Hnd IH]; simpl; constructor; [| exact IH].
  intros Hin. apply in_map_iff in Hin. destruct Hin as (y & Hy & Hin).
  apply Z_to_string_inj in Hy. subst y. contradiction.
Qed.

(** * Further properties of the component *)

(** ** Timer engine: stop, run and display *)

Lemma playAlarm_endTime (playingSeen : bool) (s : AppState) :
  endTime (fst (playAlarm playingSeen s)) = endTime s.
Proof.
  unfold playAlarm. destruct (audioRef s); [| reflexivity].
  destruct (bgmRef s && playingSeen); reflexivity.
Qed.

Lemma tick_expired_endTime (playingSeen : bool) (shown now d : Z) (s : AppState) :
  endTime s = Some (DateAt d) -> d <= now ->
  endTime (fst (tick playingSeen shown now s)) = None.
Proof.
  intros H Hle. unfold tick. rewrite H. simpl.
  destruct (Z.leb_spec d now); [| lia].
  destruct (playAlarm playingSeen (setCurrentTime (DateAt shown) s)). reflexivity.
Qed.

Lemma ticks_idle_endTime (playingSeen : bool) (clock : list (Z * Z)) :
  forall s, endTime s = None -> endTime (fst (ticks playingSeen clock s)) = None.
Proof.
  induction clock as [| [shown now] rest IH]; intros s H; [exact H |].
  simpl. rewrite (tick_idle _ _ _ _ H).
  specialize (IH (setCurrentTime (DateAt shown) s) H).
  destruct (ticks playingSeen rest (setCurrentTime (DateAt shown) s)). exact IH.
Qed.

(** After a run of ticks a running timer is idle exactly if some tick has
    reached its deadline. *)
Lemma ticks_endTime (playingSeen : bool) (d : Z) (clock : list (Z * Z)) :
  forall s, endTime s = Some (DateAt d) ->
  endTime (fst (ticks playingSeen clock s))
  = if reaches d clock then None else Some (DateAt d).
Proof.
  induction clock as [| [shown now] rest IH]; intros s H; [exact H |].
  simpl. destruct (Z.leb_spec d now) as [Hle | Hlt].
  - pose proof (tick_expired_endTime playingSeen shown now d s H Hle) as Hend.
    destruct (tick playingSeen shown now s) as [s1 fx1]. simpl in Hend.
    pose proof (ticks_idle_endTime playingSeen rest s1 Hend) as Hrest.
    destruct (ticks playingSeen rest s1). exact Hrest.
  - rewrite (tick_before _ _ _ _ _ H Hlt).
    specialize (IH (setCurrentTime (DateAt shown) s) H).
    destruct (ticks playingSeen rest (setCurrentTime (DateAt shown) s)). exact IH.
Qed.

(** X1.  [stopTimer] is idempotent; after it the countdown is not shown,
    and however long the ticker runs afterwards the alarm never plays and
    the timer stays idle. *)
Theorem stopTimer_silences (playingSeen : bool) (now : Z) (clock : list (Z * Z))
  (s : AppState) :
  stopTimer (stopTimer s) = stopTimer s
  /\ getTimeLeft now (stopTimer s) = None
  /\ alarms (snd (ticks playingSeen clock (stopTimer s))) = 0%nat
  /\ endTime (fst (ticks playingSeen clock (stopTimer s))) = None.
Proof.
  split; [reflexivity |]. split; [reflexivity |]. split.
  - apply ticks_idle. reflexivity.
  - apply ticks_idle_endTime. reflexivity.
Qed.

(** The duration branch, computed. *)
Lemma startTimer_duration (tz now1 now2 : Z) (s : AppState) :
  timerType s = duration -> durationInRange (durationInput s) ->
  0 < totalSeconds (durationInput s) -> clockInRange now1 ->
  startTimer tz now1 now2 s
  = setEndTime (Some (DateAt (now1 + totalSeconds (durationInput s) * 1000))) s.
Proof.
  intros Hty (Hh & Hm & Hs) Hpos Hc. unfold startTimer. rewrite Hty.
  unfold totalSeconds in *.
  destruct (Z.eqb_spec (hours (durationInput s)) 0) as [E1 | N1];
    destruct (Z.eqb_spec (minutes (durationInput s)) 0) as [E2 | N2];
    destruct (Z.eqb_spec (seconds (durationInput s)) 0) as [E3 | N3];
    simpl; try lia;
    (rewrite TimeClip_in_range;
     [reflexivity | unfold clockInRange, maxTime, msPerDay in *; lia]).
Qed.

(** The ticker reaches a deadline [T] seconds after the start with its
    [T]-th tick. *)
Lemma reaches_tickTimes (t0 e T : Z) (n : nat) :
  0 <= e < 1000 -> 0 < T ->
  reaches (t0 + T * 1000) (tickTimes t0 e n) = (T <=? Z.of_nat n).
Proof.
  intros He HT. unfold reaches, tickTimes.
  destruct (Z.leb_spec T (Z.of_nat n)) as [Hle | Hlt].
  - apply existsb_exists.
    exists (t0 + e + 1000 * Z.of_nat n, t0 + e + 1000 * Z.of_nat n). split.
    + apply in_map_iff. exists n. split; [reflexivity |]. apply in_seq. lia.
    + cbn [snd]. apply Z.leb_le. lia.
  - apply not_true_is_false. intros H. apply existsb_exists in H.
    destruct H as ([a b] & Hin & Hb). apply in_map_iff in Hin.
    destruct Hin as (k & Hk & Hseq). apply in_seq in Hseq.
    rewrite <- Hk in Hb. unfold snd in Hb. apply Z.leb_le in Hb. lia.
Qed.

(** X2.  A duration timer of [T] seconds, started at [t0] and followed by
    [n] ticks one second apart (the first one [e] ms plus one second after
    the start), plays the alarm exactly once if [n >= T] and not at all
    if [n < T]; it is idle afterwards exactly if [n >= T]. *)
Theorem duration_timer_run (tz t0 e : Z) (n : nat) (playingSeen : bool) (s : AppState) :
  timerType s = duration -> durationInRange (durationInput s) ->
  0 < totalSeconds (durationInput s) -> clockInRange t0 -> 0 <= e < 1000 ->
  audioRef s = true ->
  alarms (snd (ticks playingSeen (tickTimes t0 e n) (startTimer tz t0 t0 s)))
  = (if totalSeconds (durationInput s) <=? Z.of_nat n then 1%nat else 0%nat)
  /\ endTime (fst (ticks playingSeen (tickTimes t0 e n) (startTimer tz t0 t0 s)))
     = (if totalSeconds (durationInput s) <=? Z.of_nat n then None
        else Some (DateAt (t0 + totalSeconds (durationInput s) * 1000))).
Proof.
  intros Hty Hr Hpos Hc He Ha.
  rewrite (startTimer_duration tz t0 t0 s Hty Hr Hpos Hc).
  rewrite <- (reaches_tickTimes t0 e _ n He Hpos). split.
  - apply ticks_alarm_once; [reflexivity | exact Ha].
  - apply ticks_endTime. reflexivity.
Qed.

Lemma duration_timer_run_witness :
  alarms (snd (ticks false (tickTimes 1741066360802 7 4)
                     (startTimer 32400000 1741066360802 1741066360802 (durationMode 0 0 3))))
  = 1%nat
  /\ endTime (fst (ticks false (tickTimes 1741066360802 7 4)
                     (startTimer 32400000 1741066360802 1741066360802 (durationMode 0 0 3))))
     = None.
Proof.
  apply (duration_timer_run 32400000 1741066360802 7 4 false (durationMode 0 0 3)).
  - reflexivity.
  - unfold durationInRange; simpl; lia.
  - reflexivity.
  - unfold clockInRange, maxTime, msPerDay; lia.
  - lia.
  - reflexivity.
Defined.

(** X3.  On the [k]-th of those ticks the remaining time is [T - k]
    seconds if the ticks fall on whole seconds after the start ([e = 0]) and
    [T - k - 1] seconds otherwise, never below 0: the display counts down by
    one per tick and, unless [e = 0], shows 0 one tick before the alarm. *)
Theorem duration_timer_countdown (tz t0 e k : Z) (s : AppState) :
  timerType s = duration -> durationInRange (durationInput s) ->
  0 < totalSeconds (durationInput s) -> clockInRange t0 -> 0 <= e < 1000 -> 0 <= k ->
  exists d,
    endTime (startTimer tz t0 t0 s) = Some (DateAt d)
    /\ remainingSeconds (DateAt d) (t0 + e + 1000 * k)
       = Num (Z.max 0 (totalSeconds (durationInput s) - k - (if e =? 0 then 0 else 1))).
Proof.
  intros Hty Hr Hpos Hc He Hk.
  rewrite (startTimer_duration tz t0 t0 s Hty Hr Hpos Hc).
  eexists. split; [reflexivity |].
  unfold remainingSeconds, getTime, floor_div, Math_max. do 2 f_equal.
  set (T := totalSeconds (durationInput s)).
  replace (t0 + T * 1000 - (t0 + e + 1000 * k)) with (- e + (T - k) * 1000) by lia.
  rewrite Z.div_add by lia.
  destruct (Z.eqb_spec e 0) as [E | N].
  - subst e. simpl. lia.
  - assert (- e / 1000 = -1).
    { symmetry. apply (Z.div_unique (- e) 1000 (-1) (1000 - e)); lia. }
    lia.
Qed.

Lemma duration_timer_countdown_witness :
  exists d,
    endTime (startTimer 32400000 1741066360802 1741066360802 (durationMode 0 0 3))
    = Some (DateAt d)
    /\ remainingSeconds (DateAt d) (1741066360802 + 7 + 1000 * 2)
       = Num (Z.max 0 (totalSeconds (durationInput (durationMode 0 0 3)) - 2
                       - (if 7 =? 0 then 0 else 1))).
Proof.
  apply (duration_timer_countdown 32400000 1741066360802 7 2 (durationMode 0 0 3)).
  - reflexivity.
  - unfold durationInRange; simpl; lia.
  - reflexivity.
  - unfold clockInRange, maxTime, msPerDay; lia.
  - lia.
  - lia.
Defined.

(** X4.  In time-of-day mode the deadline falls on the target's local time
    of day, to the millisecond, and (the two clock readings of the call being
    on the same local day) less than 24 hours after the clock reading it was
    compared with, and not before it. *)
Theorem timeOfDay_deadline (tz now1 now2 h m : Z) (s : AppState) :
  timerType s = time -> targetTime s = timeOfDay h m ->
  0 <= h <= 23 -> 0 <= m <= 59 -> clockInRange now1 ->
  now1 <= now2 -> startOfLocalDay tz now2 = startOfLocalDay tz now1 ->
  exists d,
    endTime (startTimer tz now1 now2 s) = Some (DateAt d)
    /\ (d + tz) mod msPerDay = h * msPerHour + m * msPerMinute
    /\ now2 <= d < now2 + msPerDay.
Proof.
  intros Hty Htg Hh Hm Hc Hle Hday.
  rewrite (startTimer_time tz now1 now2 h m s Hty Htg Hh Hm Hc).
  eexists. split; [reflexivity |].
  pose proof (startOfLocalDay_bounds tz now1) as Hb1.
  pose proof (startOfLocalDay_bounds tz now2) as Hb2. rewrite Hday in Hb2.
  assert (Hx : 0 <= h * msPerHour + m * msPerMinute < msPerDay)
    by (unfold msPerHour, msPerMinute, msPerDay; lia).
  assert (Hmod : forall q, (h * msPerHour + m * msPerMinute + q * msPerDay) mod msPerDay
                           = h * msPerHour + m * msPerMinute).
  { intros q. rewrite Z.mod_add by (unfold msPerDay; lia). apply Z.mod_small. exact Hx. }
  unfold todayAt, startOfLocalDay in *.
  set (q := (now1 + tz) / msPerDay) in *.
  destruct (Z.ltb_spec (q * msPerDay - tz + h * msPerHour + m * msPerMinute) now2); split.
  - rewrite <- (Hmod (q + 1)). f_equal. lia.
  - unfold msPerDay in *. lia.
  - rewrite <- (Hmod q). f_equal. lia.
  - unfold msPerDay in *. lia.
Qed.

Lemma timeOfDay_deadline_witness :
  exists d,
    endTime (startTimer 32400000 1741066360802 1741066360803 (timeMode "08:30"))
    = Some (DateAt d)
    /\ (d + 32400000) mod msPerDay = 8 * msPerHour + 30 * msPerMinute
    /\ 1741066360803 <= d < 1741066360803 + msPerDay.
Proof.
  apply (timeOfDay_deadline 32400000 1741066360802 1741066360803 8 30 (timeMode "08:30"));
    try reflexivity; try lia.
  unfold clockInRange, maxTime, msPerDay; lia.
Defined.

Lemma split_lacks (c : ascii) (s : string) : lacks c s = true -> split c s = [s].
Proof.
  induction s as [| a rest IH]; intros H; [reflexivity |].
  simpl in *. apply andb_true_iff in H. destruct H as [Ha Hrest].
  apply negb_true_iff in Ha. rewrite Ha, (IH Hrest). reflexivity.
Qed.

Lemma split_lacks_cons (c : ascii) (a b : string) :
  lacks c a = true -> split c (a ++ String c b) = a :: split c b.
Proof.
  induction a as [| x rest IH]; intros H; simpl.
  - rewrite Ascii.eqb_refl. reflexivity.
  - simpl in H. apply andb_true_iff in H. destruct H as [Hx Hrest].
    apply negb_true_iff in Hx. rewrite Hx, (IH Hrest). reflexivity.
Qed.

Lemma ticks_invalid (playingSeen : bool) (clock : list (Z * Z)) :
  forall s, endTime s = Some InvalidDate ->
  ticks playingSeen clock s
  = (match clock with
     | [] => s
     | _ => setCurrentTime (DateAt (fst (last clock (0, 0)))) s
     end, []).
Proof.
  induction clock as [| [shown now] rest IH]; intros s H; [reflexivity |].
  simpl ticks. unfold tick. rewrite H. simpl Date_ge. cbv iota.
  rewrite (IH (setCurrentTime (DateAt shown) s) H).
  destruct rest as [| c rest']; reflexivity.
Qed.

(** X5.  A non-empty target with no colon in it (a browser that renders
    the time input as a text field can deliver one) starts a timer whose
    deadline is an Invalid Date: the countdown shows [NaN:NaN:NaN], no tick
    ever plays the alarm or clears the deadline, and the timer runs until it
    is stopped. *)
Theorem target_without_colon_never_expires (tz now1 now2 : Z) (s : AppState) :
  timerType s = time -> targetTime s <> "" -> lacks ":" (targetTime s) = true ->
  startTimer tz now1 now2 s = setEndTime (Some InvalidDate) s
  /\ (forall now, getTimeLeft now (startTimer tz now1 now2 s) = Some "NaN:NaN:NaN")
  /\ (forall playingSeen clock,
      snd (ticks playingSeen clock (startTimer tz now1 now2 s)) = []
      /\ endTime (fst (ticks playingSeen clock (startTimer tz now1 now2 s)))
         = Some InvalidDate).
Proof.
  intros Hty Hne Hl.
  assert (E : startTimer tz now1 now2 s = setEndTime (Some InvalidDate) s).
  { unfold startTimer. rewrite Hty.
    destruct (String.eqb_spec (targetTime s) "") as [E | _]; [contradiction |].
    rewrite (split_lacks ":" _ Hl). simpl map. unfold element. simpl nth.
    unfold setHours. destruct (Number (targetTime s)); reflexivity. }
  rewrite E. split; [reflexivity |]. split; [reflexivity |].
  intros playingSeen clock.
  rewrite (ticks_invalid playingSeen clock (setEndTime (Some InvalidDate) s) eq_refl).
  split; [reflexivity |]. destruct clock; reflexivity.
Qed.

Lemma target_without_colon_never_expires_witness :
  startTimer 32400000 1741066360802 1741066360803 (timeMode "0830")
  = setEndTime (Some InvalidDate) (timeMode "0830")
  /\ (forall now,
      getTimeLeft now (startTimer 32400000 1741066360802 1741066360803 (timeMode "0830"))
      = Some "NaN:NaN:NaN")
  /\ (forall playingSeen clock,
      snd (ticks playingSeen clock
             (startTimer 32400000 1741066360802 1741066360803 (timeMode "0830"))) = []
      /\ endTime (fst (ticks playingSeen clock
             (startTimer 32400000 1741066360802 1741066360803 (timeMode "0830"))))
         = Some InvalidDate).
Proof.
  apply (target_without_colon_never_expires 32400000 1741066360802 1741066360803
           (timeMode "0830")).
  - reflexivity.
  - discriminate.
  - reflexivity.
Defined.

Lemma length_append (a b : string) :
  String.length (a ++ b) = (String.length a + String.length b)%nat.
Proof. induction a as [| c a IH]; simpl; [reflexivity | now rewrite IH]. Qed.

Lemma twoDigits_table : forallb twoDigits (seq 0 100) = true.
Proof. vm_compute. reflexivity. Qed.

(** A number below 100 is shown as two digits that read back as it. *)
Lemma two_spec (z : Z) :
  0 <= z < 100 ->
  String.length (two (Num z)) = 2%nat
  /\ lacks ":" (two (Num z)) = true
  /\ Number (two (Num z)) = Num z.
Proof.
  intros Hz. pose proof twoDigits_table as T. rewrite forallb_forall in T.
  specialize (T (Z.to_nat z)). rewrite in_seq in T.
  assert (Hin : (0 <= Z.to_nat z < 0 + 100)%nat) by lia.
  specialize (T Hin). unfold twoDigits in T. rewrite Z2Nat.id in T by lia.
  apply andb_true_iff in T. destruct T as [T T3].
  apply andb_true_iff in T. destruct T as [T1 T2].
  apply Nat.eqb_eq in T1. repeat split; try assumption.
  destruct (Number (two (Num z))) as [| y]; [discriminate T3 |].
  apply Z.eqb_eq in T3. now subst.
Qed.

(** X6.  While a timer with less than 100 hours to go is running, the
    countdown is 8 characters, [HH:MM:SS]; its three parts read back as
    numbers with minutes and seconds below 60, and
    [hours*3600 + minutes*60 + seconds] is the remaining time in seconds. *)
Theorem getTimeLeft_decodes (now d : Z) (s : AppState) :
  endTime s = Some (DateAt d) -> d - now < 360000000 ->
  exists text h m sec,
    getTimeLeft now s = Some text
    /\ String.length text = 8%nat
    /\ map Number (split ":" text) = [Num h; Num m; Num sec]
    /\ 0 <= h < 100 /\ 0 <= m < 60 /\ 0 <= sec < 60
    /\ remainingSeconds (DateAt d) now = Num (h * 3600 + m * 60 + sec).
Proof.
  intros H Hlt.
  set (r := Z.max 0 ((d - now) / 1000)).
  assert (Hr : 0 <= r < 360000).
  { unfold r. split; [lia |].
    assert ((d - now) / 1000 < 360000) by (apply Z.div_lt_upper_bound; lia). lia. }
  assert (Hrem : remainingSeconds (DateAt d) now = Num r) by reflexivity.
  pose proof (Z.rem_bound_pos r 3600 ltac:(lia) ltac:(lia)) as B1.
  pose proof (Z.rem_bound_pos r 60 ltac:(lia) ltac:(lia)) as B2.
  pose proof (Z.rem_mod_nonneg r 3600 ltac:(lia) ltac:(lia)) as M1.
  pose proof (Z.rem_mod_nonneg r 60 ltac:(lia) ltac:(lia)) as M2.
  assert (Hh : 0 <= r / 3600 < 100).
  { split; [apply Z.div_pos; lia | apply Z.div_lt_upper_bound; lia]. }
  assert (Hm : 0 <= Z.rem r 3600 / 60 < 60).
  { split; [apply Z.div_pos; lia | apply Z.div_lt_upper_bound; lia]. }
  destruct (two_spec (r / 3600) Hh) as (L1 & C1 & N1).
  destruct (two_spec (Z.rem r 3600 / 60) ltac:(lia)) as (L2 & C2 & N2).
  destruct (two_spec (Z.rem r 60) ltac:(lia)) as (L3 & C3 & N3).
  exists (two (Num (r / 3600)) ++ ":" ++ two (Num (Z.rem r 3600 / 60)) ++ ":"
          ++ two (Num (Z.rem r 60)))%string.
  exists (r / 3600), (Z.rem r 3600 / 60), (Z.rem r 60).
  split; [unfold getTimeLeft; rewrite H, Hrem; reflexivity |].
  split.
  { rewrite !length_append, L1, L2, L3. reflexivity. }
  split.
  { set (A := two (Num (r / 3600))) in *.
    set (B := two (Num (Z.rem r 3600 / 60))) in *.
    set (C := two (Num (Z.rem r 60))) in *.
    change (A ++ ":" ++ B ++ ":" ++ C)%string
      with (A ++ String ":" (B ++ String ":" C))%string.
    rewrite (split_lacks_cons ":" A _ C1), (split_lacks_cons ":" B _ C2),
      (split_lacks ":" C C3).
    simpl map. now rewrite N1, N2, N3. }
  split; [exact Hh |]. split; [exact Hm |]. split; [lia |].
  rewrite Hrem. f_equal.
  rewrite M1 in *. rewrite M2.
  pose proof (Z.div_mod r 3600 ltac:(lia)).
  pose proof (Z.div_mod (r mod 3600) 60 ltac:(lia)).
  assert ((r mod 3600) mod 60 = r mod 60).
  { replace 3600 with (60 * 60) by reflexivity.
    rewrite Z.rem_mul_r by lia. rewrite Z.mul_comm, Z.mod_add by lia.
    apply Z.mod_mod. lia. }
  lia.
Qed.

Lemma getTimeLeft_decodes_witness :
  exists text h m sec,
    getTimeLeft 1000 (runningUntil 3725999) = Some text
    /\ String.length text = 8%nat
    /\ map Number (split ":" text) = [Num h; Num m; Num sec]
    /\ 0 <= h < 100 /\ 0 <= m < 60 /\ 0 <= sec < 60
    /\ remainingSeconds (DateAt 3725999) 1000 = Num (h * 3600 + m * 60 + sec).
Proof.
  apply (getTimeLeft_decodes 1000 3725999 (runningUntil 3725999)); [reflexivity | lia].
Defined.

(** ** Alarm and BGM *)

(** X7.  When the alarm fires, the BGM is paused according to the playing
    flag of the render that installed the ticker (the one in which the
    deadline was set), not according to the current flag.  If the BGM was
    started after the timer, the expiring tick only plays the alarm and the
    BGM keeps playing; if the BGM was playing when the timer was started,
    the tick pauses and rewinds it before the alarm plays and clears the
    playing flag. *)
Theorem alarm_pauses_bgm_as_seen_at_start (shown now d : Z) (s : AppState) :
  endTime s = Some (DateAt d) -> d <= now ->
  audioRef s = true -> bgmRef s = true -> isBGMLoaded s = true ->
  (isBGMPlaying s = false ->
     isBGMPlaying (fst (playSettled Fulfilled (fst (toggleBGM ReturnsPromise s)))) = true
     /\ snd (tick (isBGMPlaying s) shown now
               (fst (playSettled Fulfilled (fst (toggleBGM ReturnsPromise s)))))
        = [AlarmPlay]
     /\ isBGMPlaying (fst (tick (isBGMPlaying s) shown now
               (fst (playSettled Fulfilled (fst (toggleBGM ReturnsPromise s))))))
        = true)
  /\ (isBGMPlaying s = true ->
      snd (tick (isBGMPlaying s) shown now s) = [BgmPause; BgmSetCurrentTime 0; AlarmPlay]
      /\ isBGMPlaying (fst (tick (isBGMPlaying s) shown now s)) = false).
Proof.
  intros He Hle Ha Hb Hl. split; intros Hp.
  - unfold toggleBGM, tick, playAlarm. rewrite Hb, Hl, Hp. simpl.
    rewrite He, Ha, Hb. simpl.
    destruct (Z.leb_spec d now); [| lia]. repeat split.
  - unfold tick, playAlarm. rewrite He, Hp. simpl. rewrite Ha, Hb. simpl.
    destruct (Z.leb_spec d now); [| lia]. repeat split.
Qed.

Lemma alarm_pauses_bgm_as_seen_at_start_witness :
  snd (tick (isBGMPlaying loadedA) 5100 5200
         (fst (playSettled Fulfilled
                 (fst (toggleBGM ReturnsPromise (setEndTime (Some (DateAt 5000)) loadedA))))))
  = [AlarmPlay]
  /\ snd (tick (isBGMPlaying playingA) 5100 5200 (setEndTime (Some (DateAt 5000)) playingA))
     = [BgmPause; BgmSetCurrentTime 0; AlarmPlay].
Proof.
  split.
  - apply (proj1 (alarm_pauses_bgm_as_seen_at_start 5100 5200 5000
                    (setEndTime (Some (DateAt 5000)) loadedA)
                    eq_refl ltac:(lia) eq_refl eq_refl eq_refl) eq_refl).
  - apply (proj2 (alarm_pauses_bgm_as_seen_at_start 5100 5200 5000
                    (setEndTime (Some (DateAt 5000)) playingA)
                    eq_refl ltac:(lia) eq_refl eq_refl eq_refl) eq_refl).
Defined.

Lemma setIsBGMPlaying_same (s : AppState) :
  setIsBGMPlaying (isBGMPlaying s) s = s.
Proof. destruct s; reflexivity. Qed.

(** X8.  From loaded-idle, starting the BGM and stopping it again leads
    back to exactly the state before, having called [play()], then
    [pause()] and a rewind; a [play()] that fails (it throws, returns
    nothing, or its promise is rejected) leaves the state exactly as it
    was. *)
Theorem toggleBGM_round_trip (play : PlayCall) (s : AppState) :
  bgmRef s = true -> playbackState s = LoadedIdle ->
  toggleBGM ReturnsPromise s = (s, [BgmPlay])
  /\ toggleBGM play (fst (playSettled Fulfilled s)) = (s, [BgmPause; BgmSetCurrentTime 0])
  /\ fst (playSettled Rejected s) = s
  /\ toggleBGM ReturnsUndefined s = (s, [BgmPlay])
  /\ toggleBGM Throws s = (s, [BgmPlay; ConsoleError "Error starting BGM:"]).
Proof.
  intros Hb H. unfold playbackState in H.
  destruct (isBGMLoaded s) eqn:Hl; [| discriminate H].
  destruct (isBGMPlaying s) eqn:Hp; [discriminate H |].
  pose proof (setIsBGMPlaying_same s) as E. rewrite Hp in E.
  unfold toggleBGM. simpl. rewrite Hb, Hl, Hp. simpl.
  assert (E2 : setIsBGMPlaying false (setIsBGMPlaying true s) = s)
    by (rewrite <- E at 2; reflexivity).
  rewrite E, E2. repeat split.
Qed.

Lemma toggleBGM_round_trip_witness :
  toggleBGM ReturnsPromise loadedA = (loadedA, [BgmPlay])
  /\ toggleBGM ReturnsPromise (fst (playSettled Fulfilled loadedA))
     = (loadedA, [BgmPause; BgmSetCurrentTime 0])
  /\ fst (playSettled Rejected loadedA) = loadedA
  /\ toggleBGM ReturnsUndefined loadedA = (loadedA, [BgmPlay])
  /\ toggleBGM Throws loadedA = (loadedA, [BgmPlay; ConsoleError "Error starting BGM:"]).
Proof.
  apply (toggleBGM_round_trip ReturnsPromise loadedA); reflexivity.
Defined.

(** ** Track library: admissions and deletions together *)

Lemma withoutTrack_app (track : BGMTrack) (l1 l2 : list BGMTrack) :
  withoutTrack track (l1 ++ l2) = withoutTrack track l1 ++ withoutTrack track l2.
Proof. apply filter_app. Qed.

(** X9.  Deleting the track an upload has just added undoes the upload: if
    no track of the list the upload closed over has the new id, the list is
    that list again, in memory and in storage, nothing is selected or
    playing, and the object URL of the upload is revoked. *)
Theorem upload_then_delete_restores (p : PendingRead) (blobUrl isoNow : string)
  (s : AppState) :
  ~ In (Z_to_string (read_timestamp p)) (map id (read_tracks p)) ->
  bgmRef s = true -> startsWith "blob:" blobUrl = true ->
  tracks (fst (deleteTrack (newTrack p blobUrl isoNow)
                 (fst (readerOnload p true blobUrl isoNow s))))
  = read_tracks p
  /\ selectedTrack (fst (deleteTrack (newTrack p blobUrl isoNow)
                           (fst (readerOnload p true blobUrl isoNow s)))) = None
  /\ isBGMPlaying (fst (deleteTrack (newTrack p blobUrl isoNow)
                          (fst (readerOnload p true blobUrl isoNow s)))) = false
  /\ snd (deleteTrack (newTrack p blobUrl isoNow)
            (fst (readerOnload p true blobUrl isoNow s)))
     = [ BgmPause; RevokeObjectURL blobUrl;
         StorageSetItem storageKey (JSON_stringify (read_tracks p)) ].
Proof.
  intros Hfresh Hb Hblob.
  assert (E : withoutTrack (newTrack p blobUrl isoNow)
                (read_tracks p ++ [newTrack p blobUrl isoNow]) = read_tracks p).
  { rewrite withoutTrack_app,
      (withoutTrack_absent (newTrack p blobUrl isoNow) (read_tracks p) Hfresh).
    unfold withoutTrack. simpl. rewrite String.eqb_refl. apply app_nil_r. }
  unfold deleteTrack, isSelected, pauseIfPresent, readerOnload.
  cbn [negb fst snd selectedTrack setShowUploadForm setSelectedTrack setTracks tracks
       bgmRef filename newTrack setIsBGMPlaying isBGMPlaying].
  rewrite String.eqb_refl, Hb, Hblob.
  cbn [fst snd tracks setTracks setIsBGMPlaying setSelectedTrack selectedTrack
       isBGMPlaying app].
  change (mkTrack (Z_to_string (read_timestamp p))
            (nth 0 (split "." (file_name (read_file p))) "") composerPlaceholder blobUrl
            (file_name (read_file p)) (file_size (read_file p))
            (file_type (read_file p)) isoNow)
    with (newTrack p blobUrl isoNow).
  rewrite E. repeat split.
Qed.

Lemma upload_then_delete_restores_witness :
  tracks (fst (deleteTrack (newTrack songRead "blob:http://localhost/1" "2025-03-04T05:32:40.802Z")
                 (fst (readerOnload songRead true "blob:http://localhost/1"
                         "2025-03-04T05:32:40.802Z" (durationMode 0 0 0)))))
  = read_tracks songRead
  /\ selectedTrack (fst (deleteTrack (newTrack songRead "blob:http://localhost/1" "2025-03-04T05:32:40.802Z")
                 (fst (readerOnload songRead true "blob:http://localhost/1"
                         "2025-03-04T05:32:40.802Z" (durationMode 0 0 0))))) = None
  /\ isBGMPlaying (fst (deleteTrack (newTrack songRead "blob:http://localhost/1" "2025-03-04T05:32:40.802Z")
                 (fst (readerOnload songRead true "blob:http://localhost/1"
                         "2025-03-04T05:32:40.802Z" (durationMode 0 0 0))))) = false
  /\ snd (deleteTrack (newTrack songRead "blob:http://localhost/1" "2025-03-04T05:32:40.802Z")
                 (fst (readerOnload songRead true "blob:http://localhost/1"
                         "2025-03-04T05:32:40.802Z" (durationMode 0 0 0))))
     = [ BgmPause; RevokeObjectURL "blob:http://localhost/1";
         StorageSetItem storageKey (JSON_stringify (read_tracks songRead)) ].
Proof.
  apply (upload_then_delete_restores songRead "blob:http://localhost/1"
           "2025-03-04T05:32:40.802Z" (durationMode 0 0 0)).
  - simpl. tauto.
  - reflexivity.
  - reflexivity.
Defined.

Lemma fileChange_admits (now : Z) (f : File) (s : AppState) :
  file_size f <= MAX_FILE_SIZE -> In (file_type f) ACCEPTED_FORMATS ->
  fileChange now (Some f) s = (setUploadError None s, Some (mkPending f now (tracks s))).
Proof.
  intros Hs Ht. unfold fileChange.
  destruct (Z.ltb_spec MAX_FILE_SIZE (file_size f)); [lia |].
  apply includes_In in Ht. rewrite Ht. reflexivity.
Qed.

(** X10.  Two uploads whose reads overlap lose the first track: when a
    second valid file is chosen before the first read has finished, both
    reads close over the same list, and after both have finished the list in
    memory and in storage is that list plus the second track only.  The
    first track's object URL is not revoked. *)
Theorem overlapping_uploads_keep_last (now1 now2 : Z) (f1 f2 : File)
  (url1 iso1 url2 iso2 : string) (s : AppState) :
  file_size f1 <= MAX_FILE_SIZE -> In (file_type f1) ACCEPTED_FORMATS ->
  file_size f2 <= MAX_FILE_SIZE -> In (file_type f2) ACCEPTED_FORMATS ->
  exists p1 p2 s1 s2,
    fileChange now1 (Some f1) s = (s1, Some p1)
    /\ fileChange now2 (Some f2) s1 = (s2, Some p2)
    /\ tracks (fst (readerOnload p1 true url1 iso1 s2))
       = tracks s ++ [newTrack p1 url1 iso1]
    /\ tracks (fst (readerOnload p2 true url2 iso2 (fst (readerOnload p1 true url1 iso1 s2))))
       = tracks s ++ [newTrack p2 url2 iso2]
    /\ snd (readerOnload p2 true url2 iso2 (fst (readerOnload p1 true url1 iso1 s2)))
       = [StorageSetItem storageKey (JSON_stringify (tracks s ++ [newTrack p2 url2 iso2]))].
Proof.
  intros H1 H2 H3 H4.
  exists (mkPending f1 now1 (tracks s)), (mkPending f2 now2 (tracks s)),
    (setUploadError None s), (setUploadError None (setUploadError None s)).
  split; [apply fileChange_admits; assumption |].
  split; [apply (fileChange_admits now2 f2 (setUploadError None s)); assumption |].
  repeat split.
Qed.

Lemma overlapping_uploads_keep_last_witness :
  exists p1 p2 s1 s2,
    fileChange 1741066360802 (Some songFile) loadedA = (s1, Some p1)
    /\ fileChange 1741066360900 (Some (mkFile "b.ogg" 10 "audio/ogg")) s1 = (s2, Some p2)
    /\ tracks (fst (readerOnload p1 true "blob:1" "t1" s2))
       = tracks loadedA ++ [newTrack p1 "blob:1" "t1"]
    /\ tracks (fst (readerOnload p2 true "blob:2" "t2" (fst (readerOnload p1 true "blob:1" "t1" s2))))
       = tracks loadedA ++ [newTrack p2 "blob:2" "t2"]
    /\ snd (readerOnload p2 true "blob:2" "t2" (fst (readerOnload p1 true "blob:1" "t1" s2)))
       = [StorageSetItem storageKey (JSON_stringify (tracks loadedA ++ [newTrack p2 "blob:2" "t2"]))].
Proof.
  apply (overlapping_uploads_keep_last 1741066360802 1741066360900 songFile
           (mkFile "b.ogg" 10 "audio/ogg") "blob:1" "t1" "blob:2" "t2" loadedA).
  - unfold MAX_FILE_SIZE; simpl; lia.
  - simpl; tauto.
  - unfold MAX_FILE_SIZE; simpl; lia.
  - simpl; tauto.
Defined.

(** ** Duration fields: keypad entry *)

Lemma digitKey_spec (d : Z) :
  0 <= d <= 9 ->
  exists c, digitKey d = Char c /\ isDigitKey c = true /\ keyDigit c = d.
Proof.
  intros H.
  assert (C : d = 0 \/ d = 1 \/ d = 2 \/ d = 3 \/ d = 4 \/ d = 5 \/ d = 6 \/ d = 7
              \/ d = 8 \/ d = 9) by lia.
  repeat (destruct C as [C | C]; [subst d; eexists; repeat split |]).
  subst d; eexists; repeat split.
Qed.

(** X11.  Typing two digits [a], [b] into a field that holds 0 stores [a]
    and then [10a + b] cut at the field's maximum.  The focus does not move
    after the first digit; after the second it moves on exactly if [a] is at
    least 2 (hours) or 5 (minutes, seconds) or [10a + b] is beyond the
    maximum, so it stays in the hours field after 00 to 19 and in the other
    fields after 00 to 49. *)
Theorem two_digit_entry (f : Field) (a b : Z) (s : AppState) :
  0 <= a <= 9 -> 0 <= b <= 9 -> getField f (durationInput s) = 0 ->
  fieldKeyDown f (digitKey a) s
  = (setDurationInput (withField f a (durationInput s)) s, [])
  /\ getField f (durationInput
        (fst (fieldKeyDown f (digitKey b) (fst (fieldKeyDown f (digitKey a) s)))))
     = Z.min (fieldMax f) (10 * a + b)
  /\ snd (fieldKeyDown f (digitKey b) (fst (fieldKeyDown f (digitKey a) s)))
     = (if (advanceFrom f <=? a) || (fieldMax f <? 10 * a + b)
        then [focusNext f] else []).
Proof.
  intros Ha Hb H0.
  destruct (digitKey_spec a Ha) as (ca & Ea & Da & Va).
  destruct (digitKey_spec b Hb) as (cb & Eb & Db & Vb).
  rewrite Ea, Eb.
  assert (E1 : fieldKeyDown f (Char ca) s
               = (setDurationInput (withField f a (durationInput s)) s, [])).
  { unfold fieldKeyDown. rewrite Da, H0, Va.
    replace (Z.rem (0 * 10 + a) 100) with a
      by (symmetry; rewrite Z.rem_mod_nonneg by lia; apply Z.mod_small; lia).
    replace (Z.min (fieldMax f) a) with a by (destruct f; simpl; lia).
    replace ((advanceFrom f <=? 0) || (fieldMax f <? a)) with false; [reflexivity |].
    symmetry. apply orb_false_iff. split; [destruct f; reflexivity |].
    apply Z.ltb_ge. destruct f; simpl; lia. }
  rewrite E1. split; [reflexivity |].
  unfold fieldKeyDown. cbn [fst snd durationInput setDurationInput].
  rewrite withField_get, Db, Vb.
  replace (Z.rem (a * 10 + b) 100) with (10 * a + b)
    by (symmetry; rewrite Z.rem_mod_nonneg by lia; rewrite Z.mod_small by lia; lia).
  cbn [fst snd durationInput setDurationInput]. rewrite withField_get.
  split; reflexivity.
Qed.

Lemma two_digit_entry_witness :
  fieldKeyDown Hours (digitKey 1) (durationMode 0 0 0)
  = (setDurationInput (withField Hours 1 (durationInput (durationMode 0 0 0)))
       (durationMode 0 0 0), [])
  /\ getField Hours (durationInput
        (fst (fieldKeyDown Hours (digitKey 2)
                (fst (fieldKeyDown Hours (digitKey 1) (durationMode 0 0 0))))))
     = Z.min (fieldMax Hours) (10 * 1 + 2)
  /\ snd (fieldKeyDown Hours (digitKey 2)
            (fst (fieldKeyDown Hours (digitKey 1) (durationMode 0 0 0))))
     = (if (advanceFrom Hours <=? 1) || (fieldMax Hours <? 10 * 1 + 2)
        then [focusNext Hours] else []).
Proof.
  apply (two_digit_entry Hours 1 2 (durationMode 0 0 0)); try lia. reflexivity.
Defined.

(** X12.  A digit typed into a field that already holds a number keeps
    only that number's last digit in front of the new one: the field becomes
    [(old mod 10) * 10 + digit], cut at the field's maximum. *)
Theorem rolling_entry_keeps_last_digit (f : Field) (c : ascii) (s : AppState) :
  durationInRange (durationInput s) -> isDigitKey c = true ->
  getField f (durationInput (fst (fieldKeyDown f (Char c) s)))
  = Z.min (fieldMax f) ((getField f (durationInput s) mod 10) * 10 + keyDigit c).
Proof.
  intros Hr Hc. pose proof (keyDigit_range c Hc) as Hd.
  pose proof (getField_range f _ Hr) as Hv. pose proof (fieldMax_pos f) as Hmax.
  unfold fieldKeyDown. rewrite Hc. cbn [fst durationInput setDurationInput].
  rewrite withField_get. f_equal.
  set (v := getField f (durationInput s)) in *.
  rewrite Z.rem_mod_nonneg by lia.
  pose proof (Z.div_mod v 10 ltac:(lia)) as Hv10.
  pose proof (Z.mod_pos_bound v 10 ltac:(lia)) as Hb10.
  symmetry. apply (Z.mod_unique (v * 10 + keyDigit c) 100 (v / 10)); lia.
Qed.

Lemma rolling_entry_keeps_last_digit_witness :
  getField Minutes (durationInput (fst (fieldKeyDown Minutes (Char "4") (durationMode 2 12 0))))
  = Z.min (fieldMax Minutes) ((12 mod 10) * 10 + keyDigit "4").
Proof.
  apply (rolling_entry_keeps_last_digit Minutes "4"%char (durationMode 2 12 0)).
  - unfold durationInRange; simpl; lia.
  - reflexivity.
Defined.

Lemma pressTimes_up (n : nat) (f : Field) :
  forall s, getField f (durationInput s) <= fieldMax f ->
  getField f (durationInput (pressTimes n f ArrowUp s))
  = Z.min (fieldMax f) (getField f (durationInput s) + Z.of_nat n).
Proof.
  induction n as [| n IH]; intros s H.
  - simpl. lia.
  - cbn [pressTimes]. rewrite IH.
    + unfold fieldKeyDown. cbn [fst durationInput setDurationInput].
      rewrite withField_get. lia.
    + unfold fieldKeyDown. cbn [fst durationInput setDurationInput].
      rewrite withField_get. lia.
Qed.

Lemma pressTimes_down (n : nat) (f : Field) :
  forall s, 0 <= getField f (durationInput s) ->
  getField f (durationInput (pressTimes n f ArrowDown s))
  = Z.max 0 (getField f (durationInput s) - Z.of_nat n).
Proof.
  induction n as [| n IH]; intros s H.
  - simpl. lia.
  - cbn [pressTimes]. rewrite IH.
    + unfold fieldKeyDown. cbn [fst durationInput setDurationInput].
      rewrite withField_get. lia.
    + unfold fieldKeyDown. cbn [fst durationInput setDurationInput].
      rewrite withField_get. lia.
Qed.

(** X13.  The arrow keys count within the range and stop at its ends: [n]
    presses of ArrowUp on a field holding [v] give [min(max, v + n)], [n]
    presses of ArrowDown give [max(0, v - n)]; the other two fields keep
    their values. *)
Theorem arrow_keys_saturate (n : nat) (f g : Field) (s : AppState) :
  durationInRange (durationInput s) ->
  getField f (durationInput (pressTimes n f ArrowUp s))
  = Z.min (fieldMax f) (getField f (durationInput s) + Z.of_nat n)
  /\ getField f (durationInput (pressTimes n f ArrowDown s))
     = Z.max 0 (getField f (durationInput s) - Z.of_nat n)
  /\ (g <> f ->
      getField g (durationInput (pressTimes n f ArrowUp s)) = getField g (durationInput s)
      /\ getField g (durationInput (pressTimes n f ArrowDown s))
         = getField g (durationInput s)).
Proof.
  intros Hr. pose proof (getField_range f _ Hr) as Hv.
  split; [apply pressTimes_up; lia |]. split; [apply pressTimes_down; lia |].
  intros Hne. clear Hr Hv. revert s.
  induction n as [| n IH]; intros s; [split; reflexivity |].
  cbn [pressTimes]. destruct (IH (fst (fieldKeyDown f ArrowUp s))) as [IHu _].
  destruct (IH (fst (fieldKeyDown f ArrowDown s))) as [_ IHd].
  rewrite IHu, IHd. unfold fieldKeyDown. cbn [fst durationInput setDurationInput].
  destruct f, g; try contradiction; split; reflexivity.
Qed.

Lemma arrow_keys_saturate_witness :
  getField Hours (durationInput (pressTimes 5 Hours ArrowUp (durationMode 21 7 0)))
  = Z.min (fieldMax Hours) (21 + Z.of_nat 5)
  /\ getField Hours (durationInput (pressTimes 5 Hours ArrowDown (durationMode 21 7 0)))
     = Z.max 0 (21 - Z.of_nat 5)
  /\ (Minutes <> Hours ->
      getField Minutes (durationInput (pressTimes 5 Hours ArrowUp (durationMode 21 7 0))) = 7
      /\ getField Minutes (durationInput (pressTimes 5 Hours ArrowDown (durationMode 21 7 0)))
         = 7).
Proof.
  apply (arrow_keys_saturate 5 Hours Minutes (durationMode 21 7 0)).
  unfold durationInRange; simpl; lia.
Defined.

(** ** Initial track library: what is revoked before an error *)

Lemma forEachRevoke_prefix (items : list JSON) :
  forEachRevoke items
  = (map RevokeObjectURL (flat_map staleUrl (readablePrefix items)),
     negb (forallb hasFilename items)).
Proof.
  induction items as [| track rest IH]; [reflexivity |].
  cbn [forEachRevoke readablePrefix forallb]. rewrite IH. clear IH.
  destruct track; try reflexivity.
  cbn [revokeStale hasFilename].
  destruct (property "filename" members) as [[| | | url | |] |] eqn:E; try reflexivity.
  cbn [flat_map staleUrl andb]. rewrite E, map_app.
  destruct (startsWith "blob:" url); reflexivity.
Qed.

(** X14.  For a stored entry that parses to an array, the initializer
    revokes the [blob:] URLs of the elements in front of the first one it
    cannot read (one that is not an object with a string [filename]), in
    order, and then logs the error once, as its last call; the URLs of
    later elements are not revoked.  If it can read all, every URL is
    revoked and nothing is logged. *)
Theorem initTracks_revokes_until_unreadable (text : string) (items : list JSON) :
  present (Some text) = true ->
  snd (initTracks (Some text) (Some (JArray items)))
  = map RevokeObjectURL (flat_map staleUrl (readablePrefix items))
    ++ (if forallb hasFilename items then [] else [ConsoleError loadErrorMessage]).
Proof.
  intros H. unfold present in H. apply negb_true_iff in H.
  unfold initTracks. rewrite H. unfold revokeParsed.
  rewrite forEachRevoke_prefix. simpl.
  destruct (forallb hasFilename items); reflexivity.
Qed.

Lemma initTracks_revokes_until_unreadable_witness :
  snd (initTracks (Some storedBrokenText) (Some (JArray storedBroken)))
  = map RevokeObjectURL (flat_map staleUrl (readablePrefix storedBroken))
    ++ (if forallb hasFilename storedBroken then [] else [ConsoleError loadErrorMessage]).
Proof.
  apply (initTracks_revokes_until_unreadable storedBrokenText storedBroken).
  reflexivity.
Defined.

(** ** Invariants of the running component *)

(** Case analysis on every test a handler makes. *)
Ltac handler_cases :=
  repeat match goal with
         | |- context [match ?x with _ => _ end] =>
             lazymatch x with
             | context [match _ with _ => _ end] => fail
             | _ => destruct x eqn:?
             end
         end.

Lemma initTracks_empty (saved : option string) (parsed : option JSON) :
  fst (initTracks saved parsed) = [].
Proof.
  unfold initTracks. destruct saved as [text |]; [| reflexivity].
  destruct (String.eqb text ""); [reflexivity |].
  destruct parsed as [j |]; [| reflexivity].
  destruct (revokeParsed j); reflexivity.
Qed.

(** The events beside the library leave the list, the selection, the
    duration fields, the refs and the stored entry alone. *)
Lemma handle_besideLibrary (tz : Z) (ev : Event) (s : AppState) (stored : option string) :
  besideLibrary ev = true ->
  tracks (fst (handle tz ev s)) = tracks s
  /\ selectedTrack (fst (handle tz ev s)) = selectedTrack s
  /\ durationInput (fst (handle tz ev s)) = durationInput s
  /\ audioRef (fst (handle tz ev s)) = audioRef s
  /\ bgmRef (fst (handle tz ev s)) = bgmRef s
  /\ storageAfter (snd (handle tz ev s)) stored = stored.
Proof.
  intros H. destruct ev; try discriminate H; clear H;
    unfold handle, startTimer, stopTimer, tick, playAlarm, toggleBGM, playSettled,
      onCanPlayThrough, onBgmError;
    handler_cases; repeat split.
Qed.

Lemma first_segment_noDot (s : string) :
  noDot (nth 0 (split "." s) EmptyString) = true.
Proof.
  induction s as [| c rest IH]; [reflexivity |].
  simpl. destruct (Ascii.eqb c ".") eqn:E; [reflexivity |].
  pose proof (split_nonempty "." rest) as Hne.
  destruct (split "." rest) as [| seg segs]; [contradiction |].
  simpl in *. now rewrite E, IH.
Qed.

Lemma newTrack_admissible (now : Z) (f : File) (s s1 : AppState) (p : PendingRead)
  (blobUrl isoNow : string) :
  fileChange now (Some f) s = (s1, Some p) -> admissible (newTrack p blobUrl isoNow).
Proof.
  unfold fileChange.
  destruct (Z.ltb_spec MAX_FILE_SIZE (file_size f)) as [| Hs]; [discriminate |].
  destruct (includes ACCEPTED_FORMATS (file_type f)) eqn:Ht; [| discriminate].
  simpl. intros H. injection H as _ H. subst p.
  unfold admissible, newTrack.
  cbn [size type composer title read_file read_timestamp].
  split; [exact Hs |]. split; [apply includes_In; exact Ht |].
  split; [reflexivity | apply first_segment_noDot].
Qed.

Lemma fileChange_frame (now : Z) (file : option File) (s : AppState) :
  tracks (fst (fileChange now file s)) = tracks s
  /\ selectedTrack (fst (fileChange now file s)) = selectedTrack s
  /\ durationInput (fst (fileChange now file s)) = durationInput s
  /\ audioRef (fst (fileChange now file s)) = audioRef s
  /\ bgmRef (fst (fileChange now file s)) = bgmRef s
  /\ (forall p, snd (fileChange now file s) = Some p ->
      read_tracks p = tracks s /\ read_timestamp p = now).
Proof.
  unfold fileChange. handler_cases; simpl;
    repeat match goal with |- _ /\ _ => split end; try reflexivity;
    intros q Hq; try discriminate Hq; injection Hq as Hq; subst q; split; reflexivity.
Qed.

Lemma invariant_file (clock now : Z) (file : option File) (hasResult : bool)
  (blobUrl isoNow : string) (tz : Z) (s : AppState) (stored : option string) :
  Invariant clock s stored -> clock <= now ->
  Invariant (now + 1)
    (fst (handle tz (EvFile now file hasResult blobUrl isoNow) s))
    (storageAfter (snd (handle tz (EvFile now file hasResult blobUrl isoNow) s)) stored).
Proof.
  intros (Hadm & Hsel & Hok & Hdur & Hst & Ha & Hb) Hle.
  destruct (fileChange_frame now file s) as (Ft & Fs & Fd & Fa & Fb & Fp).
  cbn [handle].
  destruct (fileChange now file s) as [s1 pending] eqn:Efc. simpl in Ft, Fs, Fd, Fa, Fb, Fp.
  assert (Hadm' : admittedBefore (now + 1) (tracks s1)).
  { rewrite Ft. apply (admittedBefore_later clock); [lia | exact Hadm]. }
  destruct pending as [p |].
  - destruct (Fp p eq_refl) as [Pt Pn].
    pose proof (readerOnload_admittedBefore p hasResult blobUrl isoNow s1 (now + 1)) as Hro.
    rewrite Pt, Pn in Hro.
    specialize (Hro (admittedBefore_later clock now _ Hle Hadm) Hadm' ltac:(lia)).
    split; [exact Hro |]. clear Hro.
    unfold readerOnload. destruct hasResult; simpl.
    + rewrite Pt, Fd, Fa, Fb.
      split; [| split; [| split; [exact Hdur | split; [| split; assumption]]]].
      * intros t H. injection H as H. subst t. apply in_or_app. right. left. reflexivity.
      * apply Forall_app. split; [exact Hok |]. constructor; [| constructor].
        destruct file as [f |]; [| discriminate Efc].
        apply (newTrack_admissible now f s s1 p blobUrl isoNow Efc).
      * right. reflexivity.
    + rewrite Ft, Fs, Fd, Fa, Fb.
      split; [exact Hsel | split; [exact Hok | split; [exact Hdur | split; [exact Hst |]]]].
      split; assumption.
  - unfold Invariant. simpl. rewrite Ft, Fs, Fd, Fa, Fb. rewrite Ft in Hadm'.
    split; [exact Hadm' | split; [exact Hsel | split; [exact Hok |]]].
    split; [exact Hdur | split; [exact Hst | split; assumption]].
Qed.

Lemma deleteTrack_frame (track : BGMTrack) (s : AppState) (stored : option string) :
  tracks (fst (deleteTrack track s)) = withoutTrack track (tracks s)
  /\ durationInput (fst (deleteTrack track s)) = durationInput s
  /\ audioRef (fst (deleteTrack track s)) = audioRef s
  /\ bgmRef (fst (deleteTrack track s)) = bgmRef s
  /\ storageAfter (snd (deleteTrack track s)) stored
     = Some (JSON_stringify (withoutTrack track (tracks s)))
  /\ (forall t, selectedTrack (fst (deleteTrack track s)) = Some t ->
      selectedTrack s = Some t /\ id t <> id track).
Proof.
  unfold deleteTrack, pauseIfPresent, isSelected.
  destruct (selectedTrack s) as [sel |] eqn:Es.
  1: destruct (String.eqb_spec (id sel) (id track)) as [E | N].
  all: destruct (bgmRef s) eqn:Eb; destruct (startsWith "blob:" (filename track)).
  all: cbn [fst snd app storageAfter tracks selectedTrack durationInput audioRef bgmRef
            setTracks setIsBGMPlaying setSelectedTrack].
  all: rewrite ?Es, ?Eb.
  all: repeat match goal with |- _ /\ _ => split end; try reflexivity.
  all: intros t Ht; try discriminate Ht.
  all: injection Ht as Ht; subst t; split; [reflexivity | exact N].
Qed.

Lemma invariant_delete (clock : Z) (track : BGMTrack) (s : AppState)
  (stored : option string) :
  Invariant clock s stored ->
  Invariant clock (fst (deleteTrack track s))
    (storageAfter (snd (deleteTrack track s)) stored).
Proof.
  intros (Hadm & Hsel & Hok & Hdur & Hst & Ha & Hb).
  destruct (deleteTrack_frame track s stored) as (Ft & Fd & Fa & Fb & Fst & Fsel).
  unfold Invariant. rewrite Fd, Fa, Fb, Fst.
  split; [apply deleteTrack_admittedBefore; exact Hadm |].
  split.
  { intros t Ht. destruct (Fsel t Ht) as [Hs Hn].
    rewrite Ft. apply withoutTrack_In. split; [apply Hsel; exact Hs | exact Hn]. }
  split.
  { rewrite Ft. apply Forall_forall. intros t Ht. apply withoutTrack_In in Ht.
    rewrite Forall_forall in Hok. apply Hok, Ht. }
  split; [exact Hdur |]. split; [right; rewrite Ft; reflexivity |].
  split; assumption.
Qed.

Lemma invariant_field (clock : Z) (e : DurationEdit) (s : AppState)
  (stored : option string) :
  Invariant clock s stored -> Invariant clock (applyEdit e s) stored.
Proof.
  intros (Hadm & Hsel & Hok & Hdur & Hst & Ha & Hb).
  pose proof (fieldMax_pos) as Hmax.
  assert (Hd : durationInRange (durationInput (applyEdit e s))).
  { destruct e as [f parsed | f key]; simpl.
    - unfold fieldChange. simpl. apply withField_range; [exact Hdur |].
      specialize (Hmax f). lia.
    - pose proof (getField_range f _ Hdur) as Hv. specialize (Hmax f).
      unfold fieldKeyDown.
      destruct key as [| | | c |]; simpl; try exact Hdur.
      + apply withField_range; [exact Hdur | lia].
      + apply withField_range; [exact Hdur | lia].
      + destruct (getField f (durationInput s) =? 0); exact Hdur.
      + destruct (isDigitKey c) eqn:Hc; simpl; [| exact Hdur].
        apply withField_range; [exact Hdur |].
        pose proof (keyDigit_range c Hc) as Hk.
        pose proof (rolling_value (getField f (durationInput s)) (keyDigit c)
                      ltac:(lia) ltac:(lia)) as [_ Hbound].
        lia. }
  assert (Hf : tracks (applyEdit e s) = tracks s
               /\ selectedTrack (applyEdit e s) = selectedTrack s
               /\ audioRef (applyEdit e s) = audioRef s
               /\ bgmRef (applyEdit e s) = bgmRef s).
  { destruct e as [f parsed | f key]; [repeat split |].
    simpl. unfold fieldKeyDown. handler_cases; repeat split. }
  destruct Hf as (Ft & Fs & Fa & Fb).
  unfold Invariant. rewrite Ft, Fs, Fa, Fb.
  split; [exact Hadm | split; [exact Hsel | split; [exact Hok |]]].
  split; [exact Hd | split; [exact Hst | split; assumption]].
Qed.

Lemma fieldKeyDown_storage (f : Field) (key : Key) (s : AppState) (stored : option string) :
  storageAfter (snd (fieldKeyDown f key s)) stored = stored.
Proof.
  unfold fieldKeyDown. destruct key as [| | | c |]; simpl; try reflexivity.
  - destruct (getField f (durationInput s) =? 0); simpl; [destruct f |]; reflexivity.
  - destruct (isDigitKey c); simpl; [| reflexivity].
    destruct ((advanceFrom f <=? getField f (durationInput s))
              || (fieldMax f <? Z.rem (getField f (durationInput s) * 10 + keyDigit c) 100));
      simpl; [destruct f |]; reflexivity.
Qed.

Lemma invariant_intro (clock : Z) (s : AppState) (stored : option string) :
  admittedBefore clock (tracks s) ->
  (forall t, selectedTrack s = Some t -> In t (tracks s)) ->
  Forall admissible (tracks s) ->
  durationInRange (durationInput s) ->
  (tracks s = [] \/ stored = Some (JSON_stringify (tracks s))) ->
  audioRef s = true -> bgmRef s = true ->
  Invariant clock s stored.
Proof. unfold Invariant. auto 10. Qed.

(** Every reachable state satisfies the invariant. *)
Lemma reachable_invariant (tz clock : Z) (s : AppState) (stored : option string) :
  Reachable tz clock s stored -> Invariant clock s stored.
Proof.
  induction 1 as [now saved parsed | clock s stored ev _ IH Hoff].
  - apply invariant_intro; unfold initialState; simpl; rewrite ?initTracks_empty.
    + apply admittedBefore_nil.
    + intros t H. discriminate H.
    + constructor.
    + unfold durationInRange. simpl. lia.
    + left. reflexivity.
    + reflexivity.
    + reflexivity.
  - destruct (besideLibrary ev) eqn:Eb.
    + destruct (handle_besideLibrary tz ev s stored Eb) as (Ft & Fs & Fd & Fa & Fb & Fst).
      assert (Ec : clockAfter clock ev = clock) by (destruct ev; try discriminate Eb; reflexivity).
      rewrite Ec, Fst. destruct IH as (Hadm & Hsel & Hok & Hdur & Hst & Ha & Hb).
      apply invariant_intro; rewrite ?Ft, ?Fs, ?Fd, ?Fa, ?Fb; assumption.
    + destruct ev; try discriminate Eb; cbn [clockAfter].
      * exact (invariant_field clock (DirectEntry f parsed) s stored IH).
      * cbn [handle]. rewrite fieldKeyDown_storage.
        exact (invariant_field clock (KeyDown f key) s stored IH).
      * apply (invariant_file clock); [exact IH | exact Hoff].
      * destruct IH as (Hadm & Hsel & Hok & Hdur & Hst & Ha & Hb).
        cbn [handle offered] in *. unfold selectTrack, pauseIfPresent. rewrite Hb.
        apply invariant_intro; destruct (isBGMPlaying s); simpl; try assumption;
          intros t Ht; injection Ht as Ht; subst t; exact Hoff.
      * apply invariant_delete. exact IH.
Qed.

Lemma afterUpload_reachable :
  Reachable 32400000 (1741066360802 + 1) afterUpload afterUploadStored.
Proof.
  apply (Reach_step 32400000 1741066300000 (initialState 1741066300000 None None) None
           (EvFile 1741066360802 (Some songFile) true "blob:http://localhost/1"
                   "2025-03-04T05:32:40.802Z")).
  - apply Reach_init.
  - simpl. lia.
Qed.

(** X15.  In every reachable state the ids of the tracks are pairwise
    different, so deleting a listed track takes exactly one track out of the
    list. *)
Theorem reachable_ids_unique (tz clock : Z) (s : AppState) (stored : option string) :
  Reachable tz clock s stored ->
  NoDup (map id (tracks s))
  /\ (forall track, In track (tracks s) ->
      S (List.length (tracks (fst (deleteTrack track s)))) = List.length (tracks s)).
Proof.
  intros H. destruct (reachable_invariant tz clock s stored H) as (Hadm & _).
  pose proof (admittedBefore_NoDup clock (tracks s) Hadm) as Hnd.
  split; [exact Hnd |]. intros track Hin.
  destruct (withoutTrack_split track (tracks s) Hin Hnd) as (l1 & l2 & E1 & E2).
  destruct (deleteTrack_frame track s None) as (Ft & _).
  rewrite Ft, E2, E1, !length_app. simpl. lia.
Qed.

Lemma reachable_ids_unique_witness :
  NoDup (map id (tracks afterUpload))
  /\ (forall track, In track (tracks afterUpload) ->
      S (List.length (tracks (fst (deleteTrack track afterUpload))))
      = List.length (tracks afterUpload)).
Proof.
  apply (reachable_ids_unique 32400000 (1741066360802 + 1) afterUpload afterUploadStored
           afterUpload_reachable).
Defined.

(** X16.  In every reachable state the selected track, if there is one, is
    a track of the list: a deletion never leaves the selection dangling. *)
Theorem reachable_selection_listed (tz clock : Z) (s : AppState) (stored : option string)
  (t : BGMTrack) :
  Reachable tz clock s stored -> selectedTrack s = Some t -> In t (tracks s).
Proof.
  intros H. destruct (reachable_invariant tz clock s stored H) as (_ & Hsel & _).
  apply Hsel.
Qed.

Lemma reachable_selection_listed_witness :
  In (newTrack songRead "blob:http://localhost/1" "2025-03-04T05:32:40.802Z")
     (tracks afterUpload).
Proof.
  apply (reachable_selection_listed 32400000 (1741066360802 + 1) afterUpload
           afterUploadStored _ afterUpload_reachable).
  reflexivity.
Defined.

(** X17.  Every track of a reachable state went through the validator: its
    size is at most 10,485,760 bytes, its type is one of the four accepted
    ones, its composer is the placeholder and its title has no dot. *)
Theorem reachable_tracks_admissible (tz clock : Z) (s : AppState)
  (stored : option string) (t : BGMTrack) :
  Reachable tz clock s stored -> In t (tracks s) ->
  size t <= 10485760
  /\ In (type t) ["audio/mpeg"; "audio/wav"; "audio/ogg"; "audio/x-m4a"]
  /\ composer t = composerPlaceholder
  /\ noDot (title t) = true.
Proof.
  intros H Hin. destruct (reachable_invariant tz clock s stored H) as (_ & _ & Hok & _).
  rewrite Forall_forall in Hok. exact (Hok t Hin).
Qed.

Lemma reachable_tracks_admissible_witness :
  size (newTrack songRead "blob:http://localhost/1" "2025-03-04T05:32:40.802Z") <= 10485760
  /\ In (type (newTrack songRead "blob:http://localhost/1" "2025-03-04T05:32:40.802Z"))
        ["audio/mpeg"; "audio/wav"; "audio/ogg"; "audio/x-m4a"]
  /\ composer (newTrack songRead "blob:http://localhost/1" "2025-03-04T05:32:40.802Z")
     = composerPlaceholder
  /\ noDot (title (newTrack songRead "blob:http://localhost/1" "2025-03-04T05:32:40.802Z"))
     = true.
Proof.
  apply (reachable_tracks_admissible 32400000 (1741066360802 + 1) afterUpload
           afterUploadStored _ afterUpload_reachable).
  left. reflexivity.
Defined.

(** X18.  In every reachable state the duration fields are in range, so a
    duration timer started there either does nothing (all fields 0) or gets
    a deadline between 1 second and 23:59:59 after the start. *)
Theorem reachable_duration_bounded (tz clock now1 now2 : Z) (s : AppState)
  (stored : option string) :
  Reachable tz clock s stored -> timerType s = duration -> clockInRange now1 ->
  durationInRange (durationInput s)
  /\ (startTimer tz now1 now2 s = s
      \/ exists T, 1 <= T <= 86399
                   /\ startTimer tz now1 now2 s
                      = setEndTime (Some (DateAt (now1 + T * 1000))) s).
Proof.
  intros H Hty Hc.
  destruct (reachable_invariant tz clock s stored H) as (_ & _ & _ & Hdur & _).
  split; [exact Hdur |].
  destruct (Z.eq_dec (totalSeconds (durationInput s)) 0) as [E | N].
  - left. destruct Hdur as (Hh & Hm & Hs). unfold totalSeconds in E.
    unfold startTimer. rewrite Hty.
    replace (hours (durationInput s)) with 0 by lia.
    replace (minutes (durationInput s)) with 0 by lia.
    replace (seconds (durationInput s)) with 0 by lia. reflexivity.
  - right. exists (totalSeconds (durationInput s)).
    assert (Hb : 0 <= totalSeconds (durationInput s) <= 86399).
    { destruct Hdur as (Hh & Hm & Hs). unfold totalSeconds. lia. }
    split; [lia |]. apply startTimer_duration; try assumption. lia.
Qed.

Lemma reachable_duration_bounded_witness :
  durationInRange (durationInput (setTimerType duration afterUpload))
  /\ (startTimer 32400000 1741066400000 1741066400000 (setTimerType duration afterUpload)
      = setTimerType duration afterUpload
      \/ exists T, 1 <= T <= 86399
                   /\ startTimer 32400000 1741066400000 1741066400000
                        (setTimerType duration afterUpload)
                      = setEndTime (Some (DateAt (1741066400000 + T * 1000)))
                          (setTimerType duration afterUpload)).
Proof.
  apply (reachable_duration_bounded 32400000 (1741066360802 + 1) 1741066400000 1741066400000
           (setTimerType duration afterUpload) afterUploadStored).
  - apply (Reach_step 32400000 (1741066360802 + 1) afterUpload afterUploadStored
             (EvTimerType duration) afterUpload_reachable I).
  - reflexivity.
  - unfold clockInRange, maxTime, msPerDay; lia.
Defined.

(** X19.  In every reachable state with a non-empty track list the stored
    [bgmTracks] entry is the serialization of exactly that list. *)
Theorem reachable_storage_mirrors (tz clock : Z) (s : AppState) (stored : option string) :
  Reachable tz clock s stored -> tracks s <> [] ->
  stored = Some (JSON_stringify (tracks s)).
Proof.
  intros H Hne.
  destruct (reachable_invariant tz clock s stored H) as (_ & _ & _ & _ & Hst & _).
  destruct Hst as [E | E]; [contradiction | exact E].
Qed.

Lemma reachable_storage_mirrors_witness :
  afterUploadStored = Some (JSON_stringify (tracks afterUpload)).
Proof.
  apply (reachable_storage_mirrors 32400000 (1741066360802 + 1) afterUpload
           afterUploadStored afterUpload_reachable).
  discriminate.
Defined.

Lemma forEachRevoke_tracks (ts : list BGMTrack) :
  forEachRevoke (map trackJSON ts)
  = (map RevokeObjectURL (filter (startsWith "blob:") (map filename ts)), false).
Proof.
  induction ts as [| t rest IH]; [reflexivity |].
  cbn [map forEachRevoke]. rewrite IH.
  unfold revokeStale, trackJSON. cbn [property String.eqb Ascii.eqb Bool.eqb].
  cbn [filter]. destruct (startsWith "blob:" (filename t)); reflexivity.
Qed.

(** X20.  Restart.  Whatever track list was last persisted, the next
    initialization (reading that entry, [JSON.parse] returning its objects)
    starts with an empty library, revokes the object URL of every persisted
    track whose source is one, in order, and logs nothing: the persisted
    tracks are not restored. *)
Theorem restart_drops_library (now : Z) (ts : list BGMTrack) :
  initTracks (Some (JSON_stringify ts)) (Some (JArray (map trackJSON ts)))
  = ([], map RevokeObjectURL (filter (startsWith "blob:") (map filename ts)))
  /\ tracks (initialState now (Some (JSON_stringify ts)) (Some (JArray (map trackJSON ts))))
     = [].
Proof.
  assert (E : initTracks (Some (JSON_stringify ts)) (Some (JArray (map trackJSON ts)))
              = ([], map RevokeObjectURL (filter (startsWith "blob:") (map filename ts)))).
  { unfold initTracks, JSON_stringify, revokeParsed. cbn [append String.eqb].
    rewrite forEachRevoke_tracks. rewrite app_nil_r. reflexivity. }
  split; [exact E |]. unfold initialState. cbn [tracks]. now rewrite E.
Qed.

(** ** What the handlers never do *)

Ltac unfold_handlers :=
  unfold handle, startTimer, stopTimer, tick, playAlarm, toggleBGM, playSettled,
    onCanPlayThrough, onBgmError, fieldKeyDown, fileChange, readerOnload, selectTrack,
    deleteTrack, pauseIfPresent, focusNext, focusPrev.

(** X21.  Only the BGM button starts playback: whenever a handler calls
    [play()] on the BGM element, the event is a toggle and the player is
    mounted and in loaded-idle.  Uploading, selecting or deleting a track,
    and a finished load, never start it. *)
Theorem only_toggle_plays (tz : Z) (ev : Event) (s : AppState) :
  In BgmPlay (snd (handle tz ev s)) ->
  exists play, ev = EvToggle play /\ bgmRef s = true /\ playbackState s = LoadedIdle.
Proof.
  intros Hin. destruct ev.
  8: { exists play. split; [reflexivity |]. revert Hin. unfold handle, toggleBGM, playbackState.
       destruct (bgmRef s), (isBGMLoaded s), (isBGMPlaying s); simpl;
         try tauto; intuition discriminate. }
  all: exfalso; revert Hin; unfold_handlers; handler_cases; simpl; intuition discriminate.
Qed.

Lemma only_toggle_plays_witness :
  exists play, EvToggle ReturnsPromise = EvToggle play
               /\ bgmRef loadedA = true /\ playbackState loadedA = LoadedIdle.
Proof.
  apply (only_toggle_plays 32400000 (EvToggle ReturnsPromise) loadedA).
  left. reflexivity.
Defined.

(** X22.  The alarm sounds only on expiry: whenever a handler plays the
    alarm, the event is a tick, a timer is running with a valid deadline and
    the tick's clock reading has reached it; the same handler clears the
    deadline. *)
Theorem alarm_only_on_expiry (tz : Z) (ev : Event) (s : AppState) :
  In AlarmPlay (snd (handle tz ev s)) ->
  exists playingSeen shown now d,
    ev = EvTick playingSeen shown now
    /\ endTime s = Some (DateAt d) /\ d <= now
    /\ endTime (fst (handle tz ev s)) = None.
Proof.
  intros Hin. destruct ev.
  3: { exists playingSeen, shown, now. revert Hin. unfold handle, tick.
       destruct (endTime s) as [[| d] |] eqn:Ee; simpl; try tauto.
       destruct (Z.leb_spec d now) as [Hle | Hlt]; simpl; [| tauto].
       intros _. exists d. repeat split; try assumption.
       destruct (playAlarm playingSeen (setCurrentTime (DateAt shown) s)). reflexivity. }
  all: exfalso; revert Hin; unfold_handlers; handler_cases; simpl; intuition discriminate.
Qed.

Lemma alarm_only_on_expiry_witness :
  exists playingSeen shown now d,
    EvTick false 5100 5200 = EvTick playingSeen shown now
    /\ endTime (runningUntil 5000) = Some (DateAt d) /\ d <= now
    /\ endTime (fst (handle 32400000 (EvTick false 5100 5200) (runningUntil 5000))) = None.
Proof.
  apply (alarm_only_on_expiry 32400000 (EvTick false 5100 5200) (runningUntil 5000)).
  left. reflexivity.
Defined.
